(** * queuectl: the job store, the retry policy and the command line

    A shallow embedding of [queuectl/db.py] (class [JobQueue]),
    [queuectl/worker.py] (class [Worker]), [queuectl/config.py] and the
    commands [enqueue], [dlq retry], [worker stop], [status] and
    [config set] of [queuectl/cli.py].  [start_workers] (processes and
    signals) and the listings' date formatting are not modelled.

    The SQLite tables are lists of rows in rowid order: [INSERT] checks the
    primary key and appends, [UPDATE ... WHERE id = ?] maps over the rows,
    [DELETE ... WHERE id = ?] filters them.  Python exceptions are the
    [Raise] results of a small state-and-error monad; a [with conn:] block
    is [transaction], which restores the tables when its body raises. *)

From Stdlib Require Import ZArith List String Bool Lia DecimalString.
From Stdlib Require Import Sorted Permutation.
Import ListNotations.
Local Open Scope string_scope.
Local Open Scope list_scope.
Local Open Scope Z_scope.

(** ** Timestamps

    A [datetime] is the number of microseconds since [datetime.min]
    (0001-01-01 00:00:00).  The default sqlite3 adapter stores it as
    ISO text with a four-digit year, so the text order that [ORDER BY] and
    [<=] use in the queries is the order of these numbers. *)

Module Datetime.

Definition max : Z := 315537897599999999.   (* 9999-12-31 23:59:59.999999 *)

(** [timedelta(seconds=s)] for an integer [s]: the normalised day count
    must have magnitude at most 999999999, else [OverflowError]. *)
Definition timedelta (seconds : Z) : option Z :=
  if Z.abs (seconds / 86400) <=? 999999999
  then Some (seconds * 1000000) else None.

(** [d + delta]: [OverflowError] outside [datetime.min .. datetime.max]. *)
Definition add (d delta : Z) : option Z :=
  let r := d + delta in
  if (0 <=? r) && (r <=? max) then Some r else None.

End Datetime.

(** ** Rows and tables *)

Inductive job_state := pending | processing | failed | completed.

Definition job_state_eqb (a b : job_state) : bool :=
  match a, b with
  | pending, pending | processing, processing
  | failed, failed | completed, completed => true
  | _, _ => false
  end.

(** A row of [jobs]; also the [dict(row)] snapshot a worker holds.
    [attempts] is only ever written as the default 0 or as a snapshot's
    value plus one, hence [nat]. *)
Record Job := mkJob {
  j_id : string;
  j_command : string;
  j_state : job_state;
  j_attempts : nat;
  j_max_retries : Z;
  j_run_at : Z;
  j_created_at : Z;
  j_updated_at : Z
}.

(** A row of [dlq]; its [state] column is the constant default ['dead']. *)
Record dlq_row := mkDlq {
  d_id : string;
  d_command : string;
  d_attempts : nat;
  d_max_retries : Z;
  d_created_at : Z;
  d_failed_at : Z
}.

Record store := mkStore {
  jobs : list Job;
  dlq : list dlq_row
}.

(** [job_data] of [enqueue_job]: the decoded JOB_JSON object; [None] is an
    absent key. *)
Record JobData := mkJobData {
  jd_id : option string;
  jd_command : option string;
  jd_max_retries : option Z
}.

(** The dictionary [load_config] returns: it always carries
    ["max_retries"]; ["backoff_base"] is read with [.get(..., 2)]. *)
Record Config := mkConfig {
  cfg_max_retries : Z;
  cfg_backoff_base : option Z
}.

Definition DEFAULT_CONFIG : Config := mkConfig 3 (Some 2).

(** [SELECT * FROM jobs WHERE id = ?] and its [dlq] twin. *)
Definition find_job (id : string) (t : list Job) : option Job :=
  find (fun r => String.eqb (j_id r) id) t.

Definition find_dlq (id : string) (t : list dlq_row) : option dlq_row :=
  find (fun r => String.eqb (d_id r) id) t.

Definition has_job (id : string) (t : list Job) : bool :=
  existsb (fun r => String.eqb (j_id r) id) t.

Definition has_dlq (id : string) (t : list dlq_row) : bool :=
  existsb (fun r => String.eqb (d_id r) id) t.

Definition update_jobs (id : string) (f : Job -> Job) (t : list Job) : list Job :=
  map (fun r => if String.eqb (j_id r) id then f r else r) t.

Definition delete_jobs (id : string) (t : list Job) : list Job :=
  filter (fun r => negb (String.eqb (j_id r) id)) t.

Definition delete_dlq (id : string) (t : list dlq_row) : list dlq_row :=
  filter (fun r => negb (String.eqb (d_id r) id)) t.

(** The [WHERE] clause of the claim query. *)
Definition claimable (now : Z) (r : Job) : bool :=
  (job_state_eqb (j_state r) pending || job_state_eqb (j_state r) failed)
  && (j_run_at r <=? now).

(** [ORDER BY created_at ASC LIMIT 1]: the query names no second sort key;
    among rows of equal [created_at] the engine's sorter keeps the scan
    (rowid) order, so the earliest row of the table wins a tie. *)
Fixpoint oldest (t : list Job) : option Job :=
  match t with
  | [] => None
  | r :: t' =>
      match oldest t' with
      | None => Some r
      | Some m => if j_created_at r <=? j_created_at m then Some r else Some m
      end
  end.

Definition select_claimable (now : Z) (t : list Job) : option Job :=
  oldest (filter (claimable now) t).

(** ** The world and the monad *)

Inductive exn :=
| KeyError (key : string)
| IntegrityError (msg : string)
| OperationalError (msg : string)
| OverflowError (msg : string).

Definition exn_str (e : exn) : string :=
  match e with
  | KeyError k => String.append "'" (String.append k "'")
  | IntegrityError m | OperationalError m | OverflowError m => m
  end.

Inductive result (A : Type) :=
| Ok (a : A)
| Raise (e : exn).
Arguments Ok {A} a.
Arguments Raise {A} e.

Inductive stream := Stdout | Stderr.

(** What the program reads from outside: successive [datetime.now()]
    readings, SQLite's [CURRENT_TIMESTAMP], successive [uuid.uuid4()]
    strings, and the dictionary [load_config()] returns. *)
Record env := mkEnv {
  clock : nat -> Z;
  current_timestamp : nat -> Z;
  uuid : nat -> string;
  config_file : Config
}.

Record world := mkWorld {
  w_store : store;
  w_tick : nat;        (* number of [datetime.now()] calls so far *)
  w_rand : nat;        (* number of [uuid4()] calls so far *)
  w_out : list (stream * string)
}.

Definition set_store (w : world) (s : store) : world :=
  mkWorld s (w_tick w) (w_rand w) (w_out w).

Definition set_jobs (w : world) (t : list Job) : world :=
  set_store w (mkStore t (dlq (w_store w))).

Definition set_dlq (w : world) (t : list dlq_row) : world :=
  set_store w (mkStore (jobs (w_store w)) t).

Definition M (A : Type) : Type := world -> result A * world.

Definition ret {A} (a : A) : M A := fun w => (Ok a, w).

Definition bind {A B} (m : M A) (k : A -> M B) : M B :=
  fun w => match m w with
           | (Ok a, w') => k a w'
           | (Raise e, w') => (Raise e, w')
           end.

Definition raise {A} (e : exn) : M A := fun w => (Raise e, w).

(** [try: m except Exception as e: h e] *)
Definition catch {A} (m : M A) (h : exn -> M A) : M A :=
  fun w => match m w with
           | (Ok a, w') => (Ok a, w')
           | (Raise e, w') => h e w'
           end.

(** [with conn:] commits when the body returns and rolls the tables back
    when it raises; the exception goes on. *)
Definition transaction {A} (m : M A) : M A :=
  fun w => match m w with
           | (Ok a, w') => (Ok a, w')
           | (Raise e, w') => (Raise e, set_store w' (w_store w))
           end.

(** [conn.rollback()] of a transaction begun in world [w0]. *)
Definition rollback (w0 : world) : M unit :=
  fun w => (Ok tt, set_store w (w_store w0)).

Declare Scope monad_scope.
Delimit Scope monad_scope with monad.
Notation "x <- c ;; k" := (bind c (fun x => k))
  (at level 61, c at next level, right associativity) : monad_scope.
Notation "c ;; k" := (bind c (fun _ => k))
  (at level 61, right associativity) : monad_scope.
Local Open Scope monad_scope.

Definition echo (s : stream) (msg : string) : M unit :=
  fun w => (Ok tt, mkWorld (w_store w) (w_tick w) (w_rand w) (w_out w ++ [(s, msg)])).

Definition get_jobs : M (list Job) := fun w => (Ok (jobs (w_store w)), w).
Definition get_dlq : M (list dlq_row) := fun w => (Ok (dlq (w_store w)), w).
Definition put_jobs (t : list Job) : M unit := fun w => (Ok tt, set_jobs w t).
Definition put_dlq (t : list dlq_row) : M unit := fun w => (Ok tt, set_dlq w t).

(** [INSERT INTO jobs]: [id TEXT PRIMARY KEY]. *)
Definition insert_jobs (r : Job) : M unit :=
  t <- get_jobs ;;
  if has_job (j_id r) t
  then raise (IntegrityError "UNIQUE constraint failed: jobs.id")
  else put_jobs (t ++ [r]).

(** [INSERT INTO dlq]: [id TEXT PRIMARY KEY]. *)
Definition insert_dlq (r : dlq_row) : M unit :=
  t <- get_dlq ;;
  if has_dlq (d_id r) t
  then raise (IntegrityError "UNIQUE constraint failed: dlq.id")
  else put_dlq (t ++ [r]).

Definition datetime_now (E : env) : M Z :=
  fun w => (Ok (clock E (w_tick w)),
            mkWorld (w_store w) (S (w_tick w)) (w_rand w) (w_out w)).

Definition uuid4 (E : env) : M string :=
  fun w => (Ok (uuid E (w_rand w)),
            mkWorld (w_store w) (w_tick w) (S (w_rand w)) (w_out w)).

(** [DEFAULT CURRENT_TIMESTAMP], computed by the engine. *)
Definition sql_current_timestamp (E : env) : M Z :=
  fun w => (Ok (current_timestamp E (w_tick w)), w).

Definition load_config (E : env) : M Config := ret (config_file E).

(** [str(n)] for an integer. *)
Definition str (n : Z) : string := NilZero.string_of_int (Z.to_int n).

(** [ORDER BY key ASC] over the rows a scan yields: rows of equal key
    keep the scan order. *)
Fixpoint insert_by {A : Type} (key : A -> Z) (x : A) (l : list A) : list A :=
  match l with
  | [] => [x]
  | y :: l' => if key x <=? key y then x :: l else y :: insert_by key x l'
  end.

Definition order_by {A : Type} (key : A -> Z) (l : list A) : list A :=
  fold_right (insert_by key) [] l.

(** ** config.py

    The two files under [~/.queuectl] that config.py reads and writes, and
    the part of the operating system it asks.  A configuration dictionary
    maps keys to integers, as [config set] writes them; dictionaries are
    passed by value, a command being a process of its own. *)

Module ConfigPy.

Definition dict := list (string * Z).

(** [d.get(key)] *)
Fixpoint get (key : string) (d : dict) : option Z :=
  match d with
  | [] => None
  | (k, v) :: d' => if String.eqb k key then Some v else get key d'
  end.

(** [d[key] = value] *)
Fixpoint setitem (key : string) (value : Z) (d : dict) : dict :=
  match d with
  | [] => [(key, value)]
  | (k, v) :: d' =>
      if String.eqb k key then (k, value) :: d' else (k, v) :: setitem key value d'
  end.

(** [d.setdefault(key, value)] *)
Definition setdefault (key : string) (value : Z) (d : dict) : dict :=
  match get key d with
  | Some _ => d
  | None => d ++ [(key, value)]
  end.

Definition DEFAULT_CONFIG : dict := [("max_retries", 3); ("backoff_base", 2)].

(** [config.json]: absent, not JSON, or a JSON object. *)
Inductive config_json :=
| NoConfig
| Undecodable
| Object (d : dict).

(** [worker.pid] is absent ([None]) or holds a text that [int] reads as a
    number or rejects with [ValueError] ([Some None]). *)
Record files := mkFiles {
  f_config : config_json;
  f_pid : option (option Z)
}.

Inductive signal := Sig0 | SIGTERM.

(** [os.kill(pid, sig)] returns, or raises [ProcessLookupError],
    [PermissionError] (both [OSError]) or, for a pid that is no C integer,
    [OverflowError]. *)
Inductive kill_outcome :=
| Signalled
| NoSuchProcess
| NotPermitted
| OutOfRange.

Record os := mkOs {
  getpid : Z;
  kill : Z -> signal -> kill_outcome
}.

Definition load_config (fs : files) : dict :=
  match f_config fs with
  | NoConfig => DEFAULT_CONFIG
  | Undecodable => DEFAULT_CONFIG
  | Object config =>
      fold_left (fun config kv => setdefault (fst kv) (snd kv) config)
        DEFAULT_CONFIG config
  end.

Definition save_config (config_data : dict) (fs : files) : files :=
  mkFiles (Object config_data) (f_pid fs).


Definition write_pid (o : os) (fs : files) : files :=
  mkFiles (f_config fs) (Some (Some (getpid o))).

Definition read_pid (fs : files) : option Z :=
  match f_pid fs with
  | Some (Some pid) => Some pid
  | Some None => None
  | None => None
  end.

Definition remove_pid (fs : files) : files := mkFiles (f_config fs) None.

(** [if not pid] holds for [None] and for 0. *)
Definition is_worker_running (o : os) (fs : files) : result bool :=
  match read_pid fs with
  | None => Ok false
  | Some pid =>
      if pid =? 0 then Ok false
      else match kill o pid Sig0 with
           | Signalled => Ok true
           | NoSuchProcess => Ok false
           | NotPermitted => Ok false
           | OutOfRange => Raise (OverflowError "signed integer is greater than maximum")
           end
  end.

End ConfigPy.

(** ** db.py: class JobQueue *)

Module JobQueue.

(** The statements of [fetch_job] that touch the backend inside its [try];
    any of them may raise [sqlite3.OperationalError] (database is locked). *)
Inductive stmt := BeginImmediate | Select | Update | Commit.

Definition stmt_eqb (a b : stmt) : bool :=
  match a, b with
  | BeginImmediate, BeginImmediate | Select, Select
  | Update, Update | Commit, Commit => true
  | _, _ => false
  end.

(** Running statement [s] when the backend fails at [busy]. *)
Definition execute (busy : option stmt) (s : stmt) : M unit :=
  match busy with
  | Some b => if stmt_eqb b s
              then raise (OperationalError "database is locked")
              else ret tt
  | None => ret tt
  end.

Section WithEnv.

Variable E : env.

Definition enqueue_job (job_data : JobData) (config : Config) : M string :=
  fresh <- uuid4 E ;;
  let job_id := match jd_id job_data with Some i => i | None => fresh end in
  now <- datetime_now E ;;
  transaction
    (command <- match jd_command job_data with
                | Some c => ret c
                | None => raise (KeyError "command")
                end ;;
     let max_retries := match jd_max_retries job_data with
                        | Some m => m
                        | None => cfg_max_retries config
                        end in
     insert_jobs (mkJob job_id command pending 0 max_retries now now now)) ;;
  ret job_id.

Definition fetch_job (busy : option stmt) : M (option Job) :=
  fun w0 =>
    catch
      (execute busy BeginImmediate ;;
       now <- datetime_now E ;;
       execute busy Select ;;
       t <- get_jobs ;;
       match select_claimable now t with
       | Some job =>
           now' <- datetime_now E ;;
           execute busy Update ;;
           put_jobs (update_jobs (j_id job)
                       (fun r => mkJob (j_id r) (j_command r) processing
                                   (j_attempts r) (j_max_retries r)
                                   (j_run_at r) (j_created_at r) now') t) ;;
           execute busy Commit ;;
           ret (Some job)
       | None =>
           execute busy Commit ;;
           ret None
       end)
      (fun e => match e with
                | OperationalError _ => rollback w0 ;; ret None
                | _ => raise e
                end)
      w0.

Definition complete_job (job_id : string) : M unit :=
  transaction
    (now <- datetime_now E ;;
     t <- get_jobs ;;
     put_jobs (update_jobs job_id
                 (fun r => mkJob (j_id r) (j_command r) completed
                             (j_attempts r) (j_max_retries r)
                             (j_run_at r) (j_created_at r) now) t)).

Definition schedule_retry (job_id : string) (attempts : nat) (next_run_at : Z)
  : M unit :=
  transaction
    (now <- datetime_now E ;;
     t <- get_jobs ;;
     put_jobs (update_jobs job_id
                 (fun r => mkJob (j_id r) (j_command r) failed
                             attempts (j_max_retries r)
                             next_run_at (j_created_at r) now) t)).

Definition move_to_dlq (job : Job) : M unit :=
  transaction
    (failed_at <- sql_current_timestamp E ;;
     insert_dlq (mkDlq (j_id job) (j_command job) (j_attempts job)
                   (j_max_retries job) (j_created_at job) failed_at) ;;
     t <- get_jobs ;;
     put_jobs (delete_jobs (j_id job) t)).

Definition retry_dlq_job (job_id : string) (config : Config) : M bool :=
  transaction
    (d <- get_dlq ;;
     match find_dlq job_id d with
     | None => ret false
     | Some job =>
         run_at <- datetime_now E ;;
         updated_at <- datetime_now E ;;
         insert_jobs (mkJob (d_id job) (d_command job) pending 0
                        (cfg_max_retries config) run_at
                        (d_created_at job) updated_at) ;;
         d' <- get_dlq ;;
         put_dlq (delete_dlq (d_id job) d') ;;
         ret true
     end).

(** [state] is one of the four states the [click.Choice] of [list]
    admits; no row has another. *)
Definition list_jobs (state : job_state) : M (list Job) :=
  t <- get_jobs ;;
  ret (order_by j_created_at
         (filter (fun r => job_state_eqb (j_state r) state) t)).

Definition list_dlq : M (list dlq_row) :=
  d <- get_dlq ;;
  ret (order_by d_failed_at d).

(** [SELECT state, COUNT( * ) FROM jobs GROUP BY state], as the dictionary
    [{row['state']: row['count']}]: one entry per state that occurs. *)
Definition count_state (state : job_state) (t : list Job) : nat :=
  List.length (filter (fun r => job_state_eqb (j_state r) state) t).

Definition group_by_state (t : list Job) : list (job_state * nat) :=
  filter (fun p => negb (Nat.eqb (snd p) 0))
    (map (fun state => (state, count_state state t))
       [completed; failed; pending; processing]).

Record status := mkStatus {
  workers_running : bool;
  job_stats : list (job_state * nat);
  dlq_count : nat
}.

Definition get_status (o : ConfigPy.os) (fs : ConfigPy.files) : M status :=
  t <- get_jobs ;;
  let job_stats := group_by_state t in
  d <- get_dlq ;;
  let dlq_count := List.length d in
  running <- (fun w => (ConfigPy.is_worker_running o fs, w)) ;;
  ret (mkStatus running job_stats dlq_count).

End WithEnv.

End JobQueue.

(** ** worker.py: class Worker

    The worker's [print] lines are not modelled. *)

Module Worker.

(** What [subprocess.run(..., timeout=300)] does: it returns a result with
    an exit status, raises [TimeoutExpired], or raises something else. *)
Inductive run_result :=
| Returned (returncode : Z)
| TimeoutExpired
| OtherException.

(** [job['attempts'] = n] on the snapshot dictionary. *)
Definition set_attempts (job : Job) (n : nat) : Job :=
  mkJob (j_id job) (j_command job) (j_state job) n (j_max_retries job)
    (j_run_at job) (j_created_at job) (j_updated_at job).

(** [now + timedelta(seconds=delay_seconds)] *)
Definition plus_seconds (now delay_seconds : Z) : M Z :=
  match Datetime.timedelta delay_seconds with
  | None => raise (OverflowError "days out of range")
  | Some delta =>
      match Datetime.add now delta with
      | None => raise (OverflowError "date value out of range")
      | Some t => ret t
      end
  end.

Section WithEnv.

Variable E : env.
Variable config : Config.      (* [self.config] *)

(** The snapshot is a dictionary the caller keeps: the function returns it
    as it is after the call, also when the call raises.  A snapshot from
    [fetch_job] always has the key ['max_retries'], so the default of
    [job.get('max_retries', ...)] is never taken. *)
Definition handle_failure (job : Job) (w : world) : result unit * Job * world :=
  let current_attempts := S (j_attempts job) in
  let max_retries := j_max_retries job in
  if Z.of_nat current_attempts >=? max_retries then
    let job' := set_attempts job current_attempts in
    let (r, w') := JobQueue.move_to_dlq E job' w in
    (r, job', w')
  else
    let base := match cfg_backoff_base config with Some b => b | None => 2 end in
    let delay_seconds := base ^ Z.of_nat current_attempts in
    let (r, w') :=
      (now <- datetime_now E ;;
       next_run_at <- plus_seconds now delay_seconds ;;
       JobQueue.schedule_retry E (j_id job) current_attempts next_run_at) w in
    (r, job, w').

(** An exception raised in the [try] body (by [complete_job] or by the
    first [handle_failure]) is caught by [except Exception], which calls
    [handle_failure] again; one raised inside an [except] block goes on. *)
Definition execute_job (job : Job) (run : run_result) (w : world)
  : result unit * Job * world :=
  match run with
  | Returned returncode =>
      if returncode =? 0 then
        match JobQueue.complete_job E (j_id job) w with
        | (Ok _, w') => (Ok tt, job, w')
        | (Raise _, w') => handle_failure job w'
        end
      else
        match handle_failure job w with
        | (Ok _, job', w') => (Ok tt, job', w')
        | (Raise _, job', w') => handle_failure job' w'
        end
  | TimeoutExpired => handle_failure job w
  | OtherException => handle_failure job w
  end.

(** One turn of the [while] loop of [run_worker_loop]; with no job the
    worker only waits on the stop event. *)
Definition loop_body (busy : option JobQueue.stmt) (run : run_result)
  (w : world) : result unit * world :=
  match JobQueue.fetch_job E busy w with
  | (Ok (Some job), w') =>
      let '(r, _, w'') := execute_job job run w' in (r, w'')
  | (Ok None, w') => (Ok tt, w')
  | (Raise e, w') => (Raise e, w')
  end.

End WithEnv.

End Worker.

(** ** cli.py: the commands [enqueue] and [dlq retry] *)

Module Cli.

(** [json.loads(job_json)]: a decode error, or the decoded object. *)
Inductive json_result :=
| JSONDecodeError
| Decoded (d : JobData).

Inductive command :=
| Enqueue (job_json : json_result)
| DlqRetry (job_id : string).

Section WithEnv.

Variable E : env.

Definition enqueue (job_json : json_result) : M unit :=
  match job_json with
  | JSONDecodeError => echo Stderr "Error: Invalid JSON string."
  | Decoded job_data =>
      match jd_command job_data with
      | None => echo Stderr "Error: 'command' field is required in JSON."
      | Some _ =>
          job_data <- match jd_id job_data with
                      | None =>
                          fresh <- uuid4 E ;;
                          ret (mkJobData (Some fresh) (jd_command job_data)
                                 (jd_max_retries job_data))
                      | Some _ => ret job_data
                      end ;;
          config <- load_config E ;;
          catch
            (job_id <- JobQueue.enqueue_job E job_data config ;;
             echo Stdout (String.append "Job enqueued with ID: " job_id))
            (fun e => echo Stderr (String.append "Error enqueuing job: " (exn_str e)))
      end
  end.

Definition dlq_retry (job_id : string) : M unit :=
  config <- load_config E ;;
  ok <- JobQueue.retry_dlq_job E job_id config ;;
  if ok : bool
  then echo Stdout (String.append "Job "
                      (String.append job_id " moved back to queue as 'pending'."))
  else echo Stderr (String.append "Error: Job "
                      (String.append job_id " not found in DLQ.")).

Definition callback (c : command) : M unit :=
  match c with
  | Enqueue job_json => enqueue job_json
  | DlqRetry job_id => dlq_retry job_id
  end.

(** The console script runs the click group in standalone mode: when the
    callback returns, click exits with status 0; an exception that is not
    click's own leaves the interpreter with a traceback and status 1. *)
Definition main (c : command) (w : world) : Z * world :=
  match callback c w with
  | (Ok _, w') => (0, w')
  | (Raise e, w') =>
      (1, snd (echo Stderr (String.append "Traceback: " (exn_str e)) w'))
  end.

End WithEnv.

End Cli.

(** ** cli.py: the commands [worker stop], [status] and [config set] *)

Module Control.

Import ConfigPy.

(** [worker stop]: the files afterwards, what is printed, and the signals
    that were delivered.  The callback returns in every case. *)
Definition stop (o : os) (fs : files)
  : files * list (stream * string) * list (Z * signal) :=
  match read_pid fs with
  | None => (fs, [(Stdout, "Workers not running (no PID file).")], [])
  | Some pid =>
      if pid =? 0
      then (fs, [(Stdout, "Workers not running (no PID file).")], [])
      else
        match kill o pid SIGTERM with
        | Signalled =>
            (fs,
             [(Stdout, String.append "Sent SIGTERM to worker manager (PID: "
                         (String.append (str pid) ")."))],
             [(pid, SIGTERM)])
        | NoSuchProcess =>
            (remove_pid fs,
             [(Stdout, String.append "Worker process (PID: "
                         (String.append (str pid) ") not found."))],
             [])
        | NotPermitted =>
            (fs,
             [(Stderr, "Error stopping workers: [Errno 1] Operation not permitted")],
             [])
        | OutOfRange =>
            (fs,
             [(Stderr, "Error stopping workers: signed integer is greater than maximum")],
             [])
        end
  end.

(** [state.title()] *)
Definition title (state : job_state) : string :=
  match state with
  | pending => "Pending"
  | processing => "Processing"
  | failed => "Failed"
  | completed => "Completed"
  end.

(** [stats["jobs"].get(state, 0)] *)
Definition stats_get (state : job_state) (stats : list (job_state * nat)) : nat :=
  match find (fun p => job_state_eqb (fst p) state) stats with
  | Some p => snd p
  | None => 0%nat
  end.

(** The [for state in [...]] loop of [status]; it returns [total_jobs]. *)
Fixpoint count_lines (states : list job_state) (stats : list (job_state * nat))
  (total_jobs : nat) : M nat :=
  match states with
  | [] => ret total_jobs
  | state :: rest =>
      let count := stats_get state stats in
      echo Stdout (String.append "  "
                     (String.append (title state)
                        (String.append ": " (str (Z.of_nat count))))) ;;
      count_lines rest stats (total_jobs + count)%nat
  end.

Definition newline : string := String (Ascii.ascii_of_nat 10) EmptyString.

(** [status]; colours of [click.secho] are not modelled. *)
Definition status (o : os) (fs : files) : M unit :=
  stats <- JobQueue.get_status o fs ;;
  echo Stdout "--- Worker Status ---" ;;
  (if JobQueue.workers_running stats
   then echo Stdout (String.append "  Active (PID: "
                       (String.append
                          (match read_pid fs with
                           | Some pid => str pid
                           | None => "None"
                           end) ")"))
   else echo Stdout "  Stopped") ;;
  echo Stdout (String.append newline "--- Job Queue ---") ;;
  total_jobs <- count_lines [pending; processing; failed; completed]
                  (JobQueue.job_stats stats) 0 ;;
  echo Stdout (String.append "  Total: " (str (Z.of_nat total_jobs))) ;;
  echo Stdout (String.append newline "--- Dead Letter Queue ---") ;;
  echo Stdout (String.append "  Dead: " (str (Z.of_nat (JobQueue.dlq_count stats)))).

(** The [click.Choice] of [config set]. *)
Inductive config_key := max_retries | backoff_base.

Definition key_name (key : config_key) : string :=
  match key with
  | max_retries => "max_retries"
  | backoff_base => "backoff_base"
  end.

(** [config set KEY VALUE]; [value] is what [int(value)] gives, [None]
    being [ValueError]. *)
Definition set (key : config_key) (value : option Z) (fs : files)
  : files * list (stream * string) :=
  match value with
  | None =>
      (fs,
       [(Stderr, String.append "Error: Value for "
                   (String.append (key_name key) " must be an integer."))])
  | Some value =>
      let config := load_config fs in
      let config := setitem (key_name key) value config in
      (save_config config fs,
       [(Stdout, String.append "Set "
                   (String.append (key_name key)
                      (String.append " = " (str value))))])
  end.

End Control.

(** ** Rows the operations write *)

Definition retried_row (d : dlq_row) (config : Config) (run_at updated_at : Z) : Job :=
  mkJob (d_id d) (d_command d) pending 0 (cfg_max_retries config)
    run_at (d_created_at d) updated_at.

Definition claimed_row (now : Z) (r : Job) : Job :=
  mkJob (j_id r) (j_command r) processing (j_attempts r) (j_max_retries r)
    (j_run_at r) (j_created_at r) now.

Definition completed_row (now : Z) (r : Job) : Job :=
  mkJob (j_id r) (j_command r) completed (j_attempts r) (j_max_retries r)
    (j_run_at r) (j_created_at r) now.

Definition failed_row (attempts : nat) (next_run_at now : Z) (r : Job) : Job :=
  mkJob (j_id r) (j_command r) failed attempts (j_max_retries r)
    next_run_at (j_created_at r) now.

Definition dead_row (job : Job) (failed_at : Z) : dlq_row :=
  mkDlq (j_id job) (j_command job) (j_attempts job) (j_max_retries job)
    (j_created_at job) failed_at.

Definition enqueued_row (job_data : JobData) (config : Config) (id command : string)
  (now : Z) : Job :=
  mkJob id command pending 0
    (match jd_max_retries job_data with
     | Some m => m
     | None => cfg_max_retries config
     end) now now now.

(** ** Several workers and the command line on one store

    Each call of a store method is one step (the engine serialises the
    transactions).  A worker between [fetch_job] and the end of
    [execute_job] holds its snapshot; [in_flight] lists the snapshots
    held.  A worker that dies in [execute_job] drops its snapshot. *)

Module System.

Record sys := mkSys {
  sys_world : world;
  in_flight : list Job
}.

Inductive action :=
| Command (c : Cli.command)
| Claim (busy : option JobQueue.stmt)
| Settle (n : nat) (config : Config) (run : Worker.run_result).

Fixpoint remove_nth {A : Type} (n : nat) (l : list A) : list A :=
  match n, l with
  | _, [] => []
  | O, _ :: l' => l'
  | S n', x :: l' => x :: remove_nth n' l'
  end.

Definition step (E : env) (a : action) (s : sys) : sys :=
  match a with
  | Command c => mkSys (snd (Cli.main E c (sys_world s))) (in_flight s)
  | Claim busy =>
      match JobQueue.fetch_job E busy (sys_world s) with
      | (Ok (Some job), w') => mkSys w' (job :: in_flight s)
      | (_, w') => mkSys w' (in_flight s)
      end
  | Settle n config run =>
      match nth_error (in_flight s) n with
      | Some job =>
          mkSys (snd (Worker.execute_job E config job run (sys_world s)))
            (remove_nth n (in_flight s))
      | None => s
      end
  end.

Definition run (E : env) (l : list action) (s : sys) : sys :=
  fold_left (fun s a => step E a s) l s.

Definition start : sys := mkSys (mkWorld (mkStore [] []) 0 0 []) [].

(** A row of [jobs] has used fewer attempts than it is allowed, or none. *)
Definition attempts_ok (r : Job) : Prop :=
  j_attempts r = 0%nat \/ Z.of_nat (j_attempts r) < j_max_retries r.

(** A row of [dlq] records [max_retries] attempts, and at least one. *)
Definition dead_ok (d : dlq_row) : Prop :=
  Z.of_nat (d_attempts d) = Z.max 1 (d_max_retries d).

(** A snapshot in flight is backed by a [processing] row of its id with
    the same attempts, max_retries, command and created_at. *)
Definition backed (t : list Job) (snap : Job) : Prop :=
  exists row,
    In row t /\ j_id row = j_id snap /\ j_state row = processing /\
    j_attempts row = j_attempts snap /\
    j_max_retries row = j_max_retries snap /\
    j_command row = j_command snap /\
    j_created_at row = j_created_at snap.

(** What holds of the tables and the snapshots in flight: ids are unique
    in each table, the rows respect [attempts_ok] and [dead_ok], every
    snapshot in flight is backed, and no two snapshots in flight have the
    same id. *)
Definition consistent (t : list Job) (d : list dlq_row) (fl : list Job) : Prop :=
  NoDup (map j_id t) /\ NoDup (map d_id d) /\
  Forall attempts_ok t /\ Forall dead_ok d /\
  Forall (backed t) fl /\ NoDup (map j_id fl).

Definition invariant (s : sys) : Prop :=
  consistent (jobs (w_store (sys_world s))) (dlq (w_store (sys_world s)))
    (in_flight s).

(** What [execute_job] may do to the tables with snapshot [job]: nothing;
    mark the rows of its id completed; mark them failed with one more
    attempt, below [max_retries]; or move the job to the DLQ, at or above
    [max_retries] and with an id the DLQ does not hold yet. *)
Definition settled (job : Job) (st st' : store) : Prop :=
  st' = st \/
  (exists now,
      st' = mkStore (update_jobs (j_id job) (completed_row now) (jobs st))
              (dlq st)) \/
  (exists next_run_at now,
      Z.of_nat (S (j_attempts job)) < j_max_retries job /\
      st' = mkStore
              (update_jobs (j_id job)
                 (failed_row (S (j_attempts job)) next_run_at now) (jobs st))
              (dlq st)) \/
  (exists failed_at,
      j_max_retries job <= Z.of_nat (S (j_attempts job)) /\
      has_dlq (j_id job) (dlq st) = false /\
      st' = mkStore (delete_jobs (j_id job) (jobs st))
              (dlq st ++
               [mkDlq (j_id job) (j_command job) (S (j_attempts job))
                  (j_max_retries job) (j_created_at job) failed_at])).

End System.

(** ** Concrete runs

    A clock of millisecond resolution, read so fast that two successive
    readings agree, and stores reached from the empty one through the
    commands and the worker loop. *)

Module Scenario.

Definition E0 : env :=
  mkEnv (fun n => 63900000000000000 + 1000 * Z.of_nat (Nat.div n 2))
        (fun n => 63899980200000000 + 1000000 * Z.of_nat n)
        (fun _ => "3f2b8c1e-5d47-4e0a-9b61-7c2d9a4e8f10")
        DEFAULT_CONFIG.

Definition empty : world := mkWorld (mkStore [] []) 0 0 [].

(** The world after one command. *)
Definition cli (c : Cli.command) (w : world) : world := snd (Cli.main E0 c w).

(** The world after one turn of a worker whose backend is free. *)
Definition turn (config : Config) (run : Worker.run_result) (w : world) : world :=
  snd (Worker.loop_body E0 config None run w).

(** [queuectl enqueue '{"id":"j1","command":"false","max_retries":1}'] *)
Definition spec_j1 : JobData := mkJobData (Some "j1") (Some "false") (Some 1).

Definition w_queued : world := cli (Cli.Enqueue (Cli.Decoded spec_j1)) empty.

(** One failed run later, j1 is in the DLQ. *)
Definition w_dead : world := turn DEFAULT_CONFIG (Worker.Returned 1) w_queued.


(** The same JOB_JSON enqueued again: j1 is in [dlq] and in [jobs]. *)
Definition w_both : world := cli (Cli.Enqueue (Cli.Decoded spec_j1)) w_dead.

Definition live_j1 : Job :=
  mkJob "j1" "false" pending 0 1
    63900000000001000 63900000000001000 63900000000001000.

(** Two jobs enqueued within one clock reading, "b" first. *)
Definition w_tie : world :=
  cli (Cli.Enqueue (Cli.Decoded (mkJobData (Some "a") (Some "true") None)))
    (cli (Cli.Enqueue (Cli.Decoded (mkJobData (Some "b") (Some "true") None)))
       empty).

Definition row_b : Job :=
  mkJob "b" "true" pending 0 3
    63900000000000000 63900000000000000 63900000000000000.

Definition row_a : Job :=
  mkJob "a" "true" pending 0 3
    63900000000000000 63900000000000000 63900000000000000.




Definition row_j2 : Job :=
  mkJob "j2" "false" pending 0 3
    63900000000000000 63900000000000000 63900000000000000.


(** The world after a claim. *)
Definition claimed (w : world) : world := snd (JobQueue.fetch_job E0 None w).

(** After the claim in [w_tie] a worker holds the snapshot of "b". *)
Definition s_claimed : System.sys := System.mkSys (claimed w_tie) [row_b].

Definition stored_b : Job :=
  mkJob "b" "true" processing 0 3
    63900000000000000 63900000000000000 63900000000001000.

(** A host with neither [config.json] nor [worker.pid], on which no
    process answers a signal. *)
Definition os0 : ConfigPy.os :=
  ConfigPy.mkOs 4242 (fun _ _ => ConfigPy.NoSuchProcess).

Definition fs0 : ConfigPy.files := ConfigPy.mkFiles ConfigPy.NoConfig None.

End Scenario.

Ltac run_monad :=
  cbv [bind ret raise catch transaction rollback echo get_jobs get_dlq
       put_jobs put_dlq insert_jobs insert_dlq datetime_now uuid4
       sql_current_timestamp load_config set_store set_jobs set_dlq
       JobQueue.execute JobQueue.stmt_eqb];
  cbn [w_store w_tick w_rand w_out jobs dlq fst snd].

(** * Properties *)

(** ** Tables *)

Lemma find_job_some (id : string) (t : list Job) (r : Job) :
  find_job id t = Some r -> In r t /\ j_id r = id.
Proof.
  unfold find_job. intros H. apply find_some in H.
  destruct H as [Hin Heq]. apply String.eqb_eq in Heq. auto.
Qed.

Lemma find_dlq_some (id : string) (t : list dlq_row) (d : dlq_row) :
  find_dlq id t = Some d -> In d t /\ d_id d = id.
Proof.
  unfold find_dlq. intros H. apply find_some in H.
  destruct H as [Hin Heq]. apply String.eqb_eq in Heq. auto.
Qed.

Lemma has_job_find (id : string) (t : list Job) :
  has_job id t = match find_job id t with Some _ => true | None => false end.
Proof.
  unfold has_job, find_job. induction t as [|r t IH]; simpl; [reflexivity|].
  destruct (String.eqb (j_id r) id); simpl; auto.
Qed.

Lemma has_dlq_find (id : string) (t : list dlq_row) :
  has_dlq id t = match find_dlq id t with Some _ => true | None => false end.
Proof.
  unfold has_dlq, find_dlq. induction t as [|r t IH]; simpl; [reflexivity|].
  destruct (String.eqb (d_id r) id); simpl; auto.
Qed.


Lemma find_job_app (id : string) (t : list Job) (r : Job) :
  find_job id (t ++ [r]) =
  match find_job id t with
  | Some x => Some x
  | None => if String.eqb (j_id r) id then Some r else None
  end.
Proof.
  unfold find_job. induction t as [|x t IH]; simpl; [reflexivity|].
  destruct (String.eqb (j_id x) id); auto.
Qed.

Lemma find_job_update (id id' : string) (f : Job -> Job) (t : list Job) :
  (forall r, j_id (f r) = j_id r) ->
  find_job id' (update_jobs id f t) =
  option_map (fun r => if String.eqb (j_id r) id then f r else r) (find_job id' t).
Proof.
  intros Hf. unfold find_job, update_jobs.
  induction t as [|x t IH]; simpl; [reflexivity|].
  assert (Hid : j_id (if String.eqb (j_id x) id then f x else x) = j_id x)
    by (destruct (String.eqb (j_id x) id); auto).
  rewrite Hid. destruct (String.eqb (j_id x) id'); simpl; auto.
Qed.

Lemma nth_error_update (id : string) (f : Job -> Job) (t : list Job) (n : nat) :
  nth_error (update_jobs id f t) n =
  option_map (fun r => if String.eqb (j_id r) id then f r else r) (nth_error t n).
Proof. unfold update_jobs. apply nth_error_map. Qed.


Lemma has_job_delete (id : string) (t : list Job) :
  has_job id (delete_jobs id t) = false.
Proof.
  unfold has_job, delete_jobs. induction t as [|x t IH]; simpl; [reflexivity|].
  destruct (String.eqb (j_id x) id) eqn:Hx; simpl; [assumption|].
  rewrite Hx. assumption.
Qed.


(** ** The claim query *)

Lemma oldest_none (t : list Job) : oldest t = None -> t = [].
Proof.
  destruct t as [|r t]; [reflexivity|]. simpl.
  destruct (oldest t); [destruct (_ <=? _)|]; discriminate.
Qed.

Lemma oldest_min (t : list Job) (m : Job) :
  oldest t = Some m ->
  In m t /\ forall r, In r t -> j_created_at m <= j_created_at r.
Proof.
  revert m. induction t as [|x t IH]; intros m H; simpl in H; [discriminate|].
  destruct (oldest t) as [m'|] eqn:Ho.
  - destruct (IH m' eq_refl) as [Hin Hle].
    destruct (j_created_at x <=? j_created_at m') eqn:Hc; inversion H; subst m.
    + apply Z.leb_le in Hc. split; [now left|].
      intros r [->|Hr]; [lia|]. specialize (Hle r Hr). lia.
    + apply Z.leb_gt in Hc. split; [now right|].
      intros r [->|Hr]; [lia|]. now apply Hle.
  - inversion H; subst m. apply oldest_none in Ho. subst t.
    split; [now left|]. intros r [->|[]]. lia.
Qed.

(** Ties go to the row met first: every row before the chosen one is
    strictly younger. *)
Lemma oldest_first (t : list Job) (m : Job) :
  oldest t = Some m ->
  exists l1 l2, t = l1 ++ m :: l2 /\
    forall r, In r l1 -> j_created_at m < j_created_at r.
Proof.
  revert m. induction t as [|x t IH]; intros m H; simpl in H; [discriminate|].
  destruct (oldest t) as [m'|] eqn:Ho.
  - destruct (j_created_at x <=? j_created_at m') eqn:Hc; inversion H; subst m.
    + exists [], t. split; [reflexivity|]. intros r [].
    + apply Z.leb_gt in Hc.
      destruct (IH m' eq_refl) as (l1 & l2 & Ht & Hlt).
      exists (x :: l1), l2. split; [simpl; now rewrite Ht|].
      intros r [->|Hr]; [assumption|]. now apply Hlt.
  - inversion H; subst m. exists [], t. split; [reflexivity|]. intros r [].
Qed.

Lemma claimable_state (now : Z) (r : Job) :
  claimable now r = true ->
  (j_state r = pending \/ j_state r = failed) /\ j_run_at r <= now.
Proof.
  unfold claimable. intros H. apply andb_true_iff in H. destruct H as [Hs Hr].
  apply Z.leb_le in Hr. split; [|assumption].
  destruct (j_state r); simpl in Hs; auto; discriminate.
Qed.

Lemma select_claimable_spec (now : Z) (t : list Job) (m : Job) :
  select_claimable now t = Some m ->
  In m t /\ claimable now m = true /\
  forall r, In r t -> claimable now r = true -> j_created_at m <= j_created_at r.
Proof.
  unfold select_claimable. intros H. apply oldest_min in H.
  destruct H as [Hin Hle]. apply filter_In in Hin. destruct Hin as [Hin Hc].
  repeat split; auto. intros r Hr Hrc. apply Hle. apply filter_In. auto.
Qed.

Lemma select_claimable_some (now : Z) (t : list Job) (r : Job) :
  In r t -> claimable now r = true -> exists m, select_claimable now t = Some m.
Proof.
  intros Hin Hc. unfold select_claimable.
  destruct (oldest (filter (claimable now) t)) as [m|] eqn:Ho; [eauto|].
  apply oldest_none in Ho.
  assert (Hf : In r (filter (claimable now) t)) by (apply filter_In; auto).
  rewrite Ho in Hf. destruct Hf.
Qed.

(** ** The store operations, one equation per path *)

Section StoreEquations.

Variable E : env.

Lemma retry_dlq_job_absent (job_id : string) (config : Config) (w : world) :
  find_dlq job_id (dlq (w_store w)) = None ->
  JobQueue.retry_dlq_job E job_id config w = (Ok false, w).
Proof.
  intros H. unfold JobQueue.retry_dlq_job. run_monad. rewrite H. reflexivity.
Qed.

Lemma retry_dlq_job_moves (job_id : string) (config : Config) (w : world) (d : dlq_row) :
  find_dlq job_id (dlq (w_store w)) = Some d ->
  has_job job_id (jobs (w_store w)) = false ->
  JobQueue.retry_dlq_job E job_id config w =
  (Ok true,
   mkWorld
     (mkStore
        (jobs (w_store w) ++
         [retried_row d config (clock E (w_tick w)) (clock E (S (w_tick w)))])
        (delete_dlq job_id (dlq (w_store w))))
     (S (S (w_tick w))) (w_rand w) (w_out w)).
Proof.
  intros H Hj. destruct (find_dlq_some _ _ _ H) as [_ Hid].
  unfold JobQueue.retry_dlq_job, retried_row. run_monad. rewrite H. run_monad.
  cbn [j_id]. rewrite Hid, Hj. reflexivity.
Qed.

Lemma retry_dlq_job_clash (job_id : string) (config : Config) (w : world) (d : dlq_row) :
  find_dlq job_id (dlq (w_store w)) = Some d ->
  has_job job_id (jobs (w_store w)) = true ->
  JobQueue.retry_dlq_job E job_id config w =
  (Raise (IntegrityError "UNIQUE constraint failed: jobs.id"),
   mkWorld (w_store w) (S (S (w_tick w))) (w_rand w) (w_out w)).
Proof.
  intros H Hj. destruct (find_dlq_some _ _ _ H) as [_ Hid].
  unfold JobQueue.retry_dlq_job. run_monad. rewrite H. run_monad.
  cbn [j_id]. rewrite Hid, Hj. reflexivity.
Qed.

Lemma fetch_job_claims (w : world) (job : Job) :
  select_claimable (clock E (w_tick w)) (jobs (w_store w)) = Some job ->
  JobQueue.fetch_job E None w =
  (Ok (Some job),
   mkWorld
     (mkStore
        (update_jobs (j_id job) (claimed_row (clock E (S (w_tick w))))
           (jobs (w_store w)))
        (dlq (w_store w)))
     (S (S (w_tick w))) (w_rand w) (w_out w)).
Proof.
  intros H. unfold JobQueue.fetch_job. run_monad. rewrite H. reflexivity.
Qed.

Lemma fetch_job_idle (w : world) :
  select_claimable (clock E (w_tick w)) (jobs (w_store w)) = None ->
  JobQueue.fetch_job E None w =
  (Ok None, mkWorld (w_store w) (S (w_tick w)) (w_rand w) (w_out w)).
Proof.
  intros H. unfold JobQueue.fetch_job. run_monad. rewrite H.
  destruct w as [[? ?] ? ? ?]; reflexivity.
Qed.

Lemma complete_job_eq (job_id : string) (w : world) :
  JobQueue.complete_job E job_id w =
  (Ok tt,
   mkWorld
     (mkStore
        (update_jobs job_id (completed_row (clock E (w_tick w))) (jobs (w_store w)))
        (dlq (w_store w)))
     (S (w_tick w)) (w_rand w) (w_out w)).
Proof. reflexivity. Qed.

Lemma schedule_retry_eq (job_id : string) (attempts : nat) (next_run_at : Z)
  (w : world) :
  JobQueue.schedule_retry E job_id attempts next_run_at w =
  (Ok tt,
   mkWorld
     (mkStore
        (update_jobs job_id (failed_row attempts next_run_at (clock E (w_tick w)))
           (jobs (w_store w)))
        (dlq (w_store w)))
     (S (w_tick w)) (w_rand w) (w_out w)).
Proof. reflexivity. Qed.

Lemma move_to_dlq_moves (job : Job) (w : world) :
  has_dlq (j_id job) (dlq (w_store w)) = false ->
  JobQueue.move_to_dlq E job w =
  (Ok tt,
   mkWorld
     (mkStore
        (delete_jobs (j_id job) (jobs (w_store w)))
        (dlq (w_store w) ++ [dead_row job (current_timestamp E (w_tick w))]))
     (w_tick w) (w_rand w) (w_out w)).
Proof.
  intros H. unfold JobQueue.move_to_dlq. run_monad. cbn [d_id].
  rewrite H. reflexivity.
Qed.

Lemma move_to_dlq_clash (job : Job) (w : world) :
  has_dlq (j_id job) (dlq (w_store w)) = true ->
  JobQueue.move_to_dlq E job w =
  (Raise (IntegrityError "UNIQUE constraint failed: dlq.id"), w).
Proof.
  intros H. unfold JobQueue.move_to_dlq. run_monad. cbn [d_id].
  rewrite H. destruct w as [[? ?] ? ? ?]; reflexivity.
Qed.

End StoreEquations.

(** ** retry_dlq_job *)



(** ** fetch_job *)

(** C6: whichever statement of the claim transaction meets a busy or locked
    backend, [fetch_job] does not raise: it returns [None], and the tables
    are what they were (the transaction is rolled back). *)
Theorem fetch_job_busy_is_no_job (E : env) (s : JobQueue.stmt) (w : world) :
  exists w',
    JobQueue.fetch_job E (Some s) w = (Ok None, w') /\
    w_store w' = w_store w.
Proof.
  unfold JobQueue.fetch_job.
  destruct s; run_monad;
    try (destruct (select_claimable _ _); run_monad);
    eexists; split; try reflexivity;
    destruct w as [[? ?] ? ? ?]; reflexivity.
Qed.





(** ** complete_job *)

(** C8: for an id present in [jobs], [complete_job] returns normally and
    changes only [state] (to [completed]) and [updated_at] of the rows of
    that id: their id, command, attempts, max_retries, run_at and created_at
    stay, so a success never adds an attempt; every other row of [jobs]
    stays in place unchanged, and [dlq] is unchanged. *)
Theorem complete_job_frame (E : env) (job_id : string) (w : world) (row : Job) :
  find_job job_id (jobs (w_store w)) = Some row ->
  exists w',
    JobQueue.complete_job E job_id w = (Ok tt, w') /\
    dlq (w_store w') = dlq (w_store w) /\
    List.length (jobs (w_store w')) = List.length (jobs (w_store w)) /\
    (forall n r, nth_error (jobs (w_store w)) n = Some r ->
       exists r', nth_error (jobs (w_store w')) n = Some r' /\
         j_id r' = j_id r /\ j_command r' = j_command r /\
         j_attempts r' = j_attempts r /\ j_max_retries r' = j_max_retries r /\
         j_run_at r' = j_run_at r /\ j_created_at r' = j_created_at r /\
         (j_id r <> job_id -> r' = r) /\
         (j_id r = job_id ->
            j_state r' = completed /\ j_updated_at r' = clock E (w_tick w))) /\
    exists row',
      find_job job_id (jobs (w_store w')) = Some row' /\
      j_state row' = completed /\
      j_updated_at row' = clock E (w_tick w) /\
      j_attempts row' = j_attempts row /\
      j_run_at row' = j_run_at row /\
      j_created_at row' = j_created_at row /\
      j_command row' = j_command row /\
      j_max_retries row' = j_max_retries row.
Proof.
  intros Hrow. eexists. split; [apply complete_job_eq|].
  cbn [w_store jobs dlq]. split; [reflexivity|].
  split; [unfold update_jobs; apply List.length_map|]. split.
  - intros n r Hn. rewrite nth_error_update, Hn. cbn [option_map].
    eexists. split; [reflexivity|].
    destruct (String.eqb (j_id r) job_id) eqn:Hid.
    + apply String.eqb_eq in Hid. cbn. repeat split; auto. congruence.
    + apply String.eqb_neq in Hid. repeat split; auto; congruence.
  - rewrite find_job_update by reflexivity. rewrite Hrow. cbn [option_map].
    destruct (find_job_some _ _ _ Hrow) as [_ Hid].
    apply String.eqb_eq in Hid. rewrite Hid.
    eexists. split; [reflexivity|]. cbn. repeat split.
Qed.

(** ** enqueue_job *)

Section EnqueueEquations.

Variable E : env.

Lemma enqueue_job_inserts (job_data : JobData) (config : Config) (w : world)
  (id command : string) :
  jd_id job_data = Some id ->
  jd_command job_data = Some command ->
  has_job id (jobs (w_store w)) = false ->
  JobQueue.enqueue_job E job_data config w =
  (Ok id,
   mkWorld
     (mkStore
        (jobs (w_store w) ++
         [enqueued_row job_data config id command (clock E (w_tick w))])
        (dlq (w_store w)))
     (S (w_tick w)) (S (w_rand w)) (w_out w)).
Proof.
  intros Hid Hc Hj. unfold JobQueue.enqueue_job, enqueued_row. run_monad.
  rewrite Hid, Hc. run_monad. cbn [j_id]. rewrite Hj. reflexivity.
Qed.

Lemma enqueue_job_clash (job_data : JobData) (config : Config) (w : world)
  (id command : string) :
  jd_id job_data = Some id ->
  jd_command job_data = Some command ->
  has_job id (jobs (w_store w)) = true ->
  JobQueue.enqueue_job E job_data config w =
  (Raise (IntegrityError "UNIQUE constraint failed: jobs.id"),
   mkWorld (w_store w) (S (w_tick w)) (S (w_rand w)) (w_out w)).
Proof.
  intros Hid Hc Hj. unfold JobQueue.enqueue_job. run_monad.
  rewrite Hid, Hc. run_monad. cbn [j_id]. rewrite Hj. reflexivity.
Qed.

End EnqueueEquations.


(** ** The round trip through the DLQ *)


(** ** handle_failure *)

Section FailureEquations.

Variable E : env.
Variable config : Config.

Lemma handle_failure_gives_up (job : Job) (w : world) :
  j_max_retries job <= Z.of_nat (S (j_attempts job)) ->
  Worker.handle_failure E config job w =
  (let job' := Worker.set_attempts job (S (j_attempts job)) in
   let (r, w') := JobQueue.move_to_dlq E job' w in (r, job', w')).
Proof.
  intros H. unfold Worker.handle_failure.
  destruct (Z.of_nat (S (j_attempts job)) >=? j_max_retries job) eqn:Hc;
    [reflexivity|].
  rewrite Z.geb_leb in Hc. apply Z.leb_gt in Hc. lia.
Qed.

Lemma handle_failure_retries (job : Job) (w : world) :
  Z.of_nat (S (j_attempts job)) < j_max_retries job ->
  Worker.handle_failure E config job w =
  (let (r, w') :=
     bind (datetime_now E) (fun now =>
     bind (Worker.plus_seconds now
             (match cfg_backoff_base config with Some b => b | None => 2 end
              ^ Z.of_nat (S (j_attempts job))))
          (fun next_run_at =>
     JobQueue.schedule_retry E (j_id job) (S (j_attempts job)) next_run_at)) w in
   (r, job, w')).
Proof.
  intros H. unfold Worker.handle_failure.
  destruct (Z.of_nat (S (j_attempts job)) >=? j_max_retries job) eqn:Hc;
    [|reflexivity].
  rewrite Z.geb_leb in Hc. apply Z.leb_le in Hc. lia.
Qed.



End FailureEquations.


(** ** The command line *)


(** ** Concrete runs of the theorems above, and the inputs at which the
    specification's wording does not hold *)

Import Scenario.













Lemma complete_job_frame_witness :
  exists w',
    JobQueue.complete_job E0 "b" (claimed w_tie) = (Ok tt, w') /\
    jobs (w_store w') =
      [mkJob "b" "true" completed 0 3 63900000000000000 63900000000000000
         63900000000002000; row_a].
Proof.
  destruct (complete_job_frame E0 "b" (claimed w_tie)
              (mkJob "b" "true" processing 0 3 63900000000000000
                 63900000000000000 63900000000001000) eq_refl)
    as (w' & He & _).
  exists w'. split; [exact He|].
  assert (Hw : w' = snd (JobQueue.complete_job E0 "b" (claimed w_tie)))
    by (rewrite He; reflexivity).
  rewrite Hw. reflexivity.
Defined.



(** * Further properties *)

(** ** Keys of the tables *)

Lemma has_job_false_iff (id : string) (t : list Job) :
  has_job id t = false <-> ~ In id (map j_id t).
Proof.
  unfold has_job. induction t as [|x t IH]; simpl.
  - split; [intros _ []|reflexivity].
  - destruct (String.eqb (j_id x) id) eqn:Hx; simpl.
    + apply String.eqb_eq in Hx. split; [discriminate|]. intros H. exfalso. auto.
    + apply String.eqb_neq in Hx. rewrite IH. tauto.
Qed.

Lemma has_dlq_false_iff (id : string) (t : list dlq_row) :
  has_dlq id t = false <-> ~ In id (map d_id t).
Proof.
  unfold has_dlq. induction t as [|x t IH]; simpl.
  - split; [intros _ []|reflexivity].
  - destruct (String.eqb (d_id x) id) eqn:Hx; simpl.
    + apply String.eqb_eq in Hx. split; [discriminate|]. intros H. exfalso. auto.
    + apply String.eqb_neq in Hx. rewrite IH. tauto.
Qed.

Lemma map_id_update (id : string) (f : Job -> Job) (t : list Job) :
  (forall r, j_id (f r) = j_id r) ->
  map j_id (update_jobs id f t) = map j_id t.
Proof.
  intros Hf. unfold update_jobs. rewrite map_map. apply map_ext.
  intros r. destruct (String.eqb (j_id r) id); auto.
Qed.

Lemma filter_keeps_key {Row Key : Type} (key : Row -> Key) (keep : Row -> bool)
  (rows : list Row) :
  NoDup (map key rows) -> NoDup (map key (filter keep rows)).
Proof.
  induction rows as [|r rows IH]; simpl; intros Hkey; [constructor|].
  inversion Hkey as [|? ? Hfresh Hrest]; subst.
  destruct (keep r); simpl; [|auto].
  constructor; [|auto]. intros Hin. apply Hfresh.
  apply in_map_iff in Hin. destruct Hin as (r' & Hr' & Hin).
  apply filter_In in Hin. apply in_map_iff. exists r'. tauto.
Qed.

Lemma snoc_keeps_key {Row Key : Type} (key : Row -> Key) (rows : list Row)
  (r : Row) :
  NoDup (map key rows) -> ~ In (key r) (map key rows) ->
  NoDup (map key (rows ++ [r])).
Proof.
  intros Hkey Hfresh. rewrite map_app. simpl.
  apply NoDup_app; [assumption | repeat constructor; intros [] |].
  intros k Hk [<-|[]]. contradiction.
Qed.

Lemma unique_by_id (t : list Job) (r1 r2 : Job) :
  NoDup (map j_id t) -> In r1 t -> In r2 t -> j_id r1 = j_id r2 -> r1 = r2.
Proof.
  induction t as [|x t IH]; simpl; intros Hnd H1 H2 Hid; [contradiction|].
  inversion Hnd as [|? ? Hnin Hnd']; subst.
  destruct H1 as [->|H1], H2 as [->|H2]; auto.
  - exfalso. apply Hnin. rewrite Hid. now apply in_map.
  - exfalso. apply Hnin. rewrite <- Hid. now apply in_map.
Qed.

Lemma in_update (id : string) (f : Job -> Job) (t : list Job) (r : Job) :
  In r t -> In (if String.eqb (j_id r) id then f r else r) (update_jobs id f t).
Proof.
  intros H. unfold update_jobs.
  apply (in_map (fun r => if String.eqb (j_id r) id then f r else r)) in H.
  exact H.
Qed.

Lemma in_update_other (id : string) (f : Job -> Job) (t : list Job) (r : Job) :
  In r t -> j_id r <> id -> In r (update_jobs id f t).
Proof.
  intros H Hne. apply (in_update id f) in H.
  apply String.eqb_neq in Hne. now rewrite Hne in H.
Qed.

Lemma in_delete_other (id : string) (t : list Job) (r : Job) :
  In r t -> j_id r <> id -> In r (delete_jobs id t).
Proof.
  intros H Hne. unfold delete_jobs. apply filter_In. split; [assumption|].
  apply String.eqb_neq in Hne. now rewrite Hne.
Qed.

Lemma Forall_update (P : Job -> Prop) (id : string) (f : Job -> Job) (t : list Job) :
  Forall P t ->
  (forall r, In r t -> j_id r = id -> P (f r)) ->
  Forall P (update_jobs id f t).
Proof.
  intros H Hf. unfold update_jobs. apply Forall_forall. intros r Hr.
  apply in_map_iff in Hr. destruct Hr as (r0 & <- & Hin).
  rewrite Forall_forall in H.
  destruct (String.eqb (j_id r0) id) eqn:Hid; [|auto].
  apply String.eqb_eq in Hid. auto.
Qed.

Lemma filter_keeps_all {Row : Type} (P : Row -> Prop) (keep : Row -> bool)
  (rows : list Row) :
  Forall P rows -> Forall P (filter keep rows).
Proof.
  intros Hall. apply Forall_forall. intros r Hr. apply filter_In in Hr.
  rewrite Forall_forall in Hall. apply Hall. tauto.
Qed.

(** ** Snapshots in flight *)

Import System.

Lemma remove_nth_incl {A : Type} (n : nat) (l : list A) (x : A) :
  In x (remove_nth n l) -> In x l.
Proof.
  revert n. induction l as [|y l IH]; intros [|n]; simpl; auto.
  intros [->|H]; eauto.
Qed.

Lemma remove_nth_NoDup {A B : Type} (f : A -> B) (n : nat) (l : list A) :
  NoDup (map f l) -> NoDup (map f (remove_nth n l)).
Proof.
  revert n. induction l as [|y l IH]; intros [|n]; simpl; intros H;
    try constructor; inversion H as [|? ? Hnin Hnd]; subst; auto.
  - intros Hin. apply Hnin. apply in_map_iff in Hin.
    destruct Hin as (z & Hz & Hzin). apply in_map_iff. exists z.
    split; [assumption|]. eapply remove_nth_incl; eauto.
Qed.

Lemma remove_nth_other {A B : Type} (f : A -> B) (n : nat) (l : list A) (x y : A) :
  NoDup (map f l) -> nth_error l n = Some y -> In x (remove_nth n l) ->
  f x <> f y.
Proof.
  revert n. induction l as [|z l IH]; intros [|n]; simpl; intros Hnd Hn Hx;
    try discriminate; inversion Hnd as [|? ? Hnin Hnd']; subst.
  - inversion Hn; subst. intros Heq. apply Hnin. rewrite <- Heq. now apply in_map.
  - destruct Hx as [->|Hx]; [|eauto].
    intros Heq. apply Hnin. rewrite Heq. apply in_map.
    eapply nth_error_In; eauto.
Qed.


Lemma consistent_drop (t : list Job) (d : list dlq_row) (fl : list Job) (n : nat) :
  consistent t d fl -> consistent t d (remove_nth n fl).
Proof.
  intros (H1 & H2 & H3 & H4 & H5 & H6). repeat split; auto.
  - apply Forall_forall. intros x Hx. rewrite Forall_forall in H5.
    apply H5. eapply remove_nth_incl; eauto.
  - now apply remove_nth_NoDup.
Qed.

Lemma backed_mono (t t' : list Job) (snap : Job) :
  (forall row, In row t -> j_id row = j_id snap -> In row t') ->
  backed t snap -> backed t' snap.
Proof.
  intros Hsub (row & Hin & Hid & Hrest). exists row. split; auto.
Qed.

Lemma consistent_insert (t : list Job) (d : list dlq_row) (fl : list Job) (r : Job) :
  consistent t d fl -> has_job (j_id r) t = false -> j_attempts r = 0%nat ->
  consistent (t ++ [r]) d fl.
Proof.
  intros (H1 & H2 & H3 & H4 & H5 & H6) Hfresh Hzero. repeat split; auto.
  - apply snoc_keeps_key; [assumption|]. now apply has_job_false_iff.
  - apply Forall_app. split; [assumption|]. constructor; [now left | constructor].
  - eapply Forall_impl; [|exact H5]. intros snap. apply backed_mono.
    intros row Hin _. apply in_or_app. now left.
Qed.

Lemma consistent_delete_dlq (t : list Job) (d : list dlq_row) (fl : list Job)
  (id : string) :
  consistent t d fl -> consistent t (delete_dlq id d) fl.
Proof.
  intros (H1 & H2 & H3 & H4 & H5 & H6). repeat split; auto.
  - now apply filter_keeps_key.
  - now apply filter_keeps_all.
Qed.

Lemma held_is_not_claimable (t : list Job) (fl : list Job) (job snap : Job) :
  NoDup (map j_id t) -> Forall (backed t) fl ->
  In job t -> j_state job <> processing -> In snap fl ->
  j_id snap <> j_id job.
Proof.
  intros Hnd Hb Hin Hst Hsnap Heq. rewrite Forall_forall in Hb.
  destruct (Hb snap Hsnap) as (row & Hrin & Hrid & Hrst & _).
  assert (row = job) by (apply (unique_by_id t); congruence).
  subst row. contradiction.
Qed.

Lemma consistent_claim (t : list Job) (d : list dlq_row) (fl : list Job)
  (job : Job) (now : Z) :
  consistent t d fl -> In job t -> j_state job <> processing ->
  consistent (update_jobs (j_id job) (claimed_row now) t) d (job :: fl).
Proof.
  intros (H1 & H2 & H3 & H4 & H5 & H6) Hin Hst. repeat split; auto.
  - now rewrite map_id_update.
  - apply Forall_update; [assumption|]. intros r Hr _.
    rewrite Forall_forall in H3. exact (H3 r Hr).
  - constructor.
    + exists (claimed_row now job). split.
      * pose proof (in_update (j_id job) (claimed_row now) t job Hin) as H.
        now rewrite String.eqb_refl in H.
      * repeat split.
    + apply Forall_forall. intros snap Hsnap.
      pose proof (held_is_not_claimable t fl job snap H1 H5 Hin Hst Hsnap) as Hne.
      rewrite Forall_forall in H5. apply (backed_mono t); [|auto].
      intros row Hrow Hid. apply in_update_other; congruence.
  - simpl. constructor; [|assumption]. intros Hmem.
    apply in_map_iff in Hmem. destruct Hmem as (snap & Hid & Hsnap).
    exact (held_is_not_claimable t fl job snap H1 H5 Hin Hst Hsnap Hid).
Qed.

Lemma others_keep_backing (t t' : list Job) (fl : list Job) (n : nat) (job : Job) :
  Forall (backed t) fl -> NoDup (map j_id fl) -> nth_error fl n = Some job ->
  (forall row, In row t -> j_id row <> j_id job -> In row t') ->
  Forall (backed t') (remove_nth n fl).
Proof.
  intros Hb Hnd Hn Hkeep. apply Forall_forall. intros snap Hsnap.
  pose proof (remove_nth_other j_id n fl snap job Hnd Hn Hsnap) as Hne.
  rewrite Forall_forall in Hb.
  apply (backed_mono t); [|apply Hb; eapply remove_nth_incl; eauto].
  intros row Hrow Hid. apply Hkeep; congruence.
Qed.

Lemma consistent_settle_update (t : list Job) (d : list dlq_row) (fl : list Job)
  (n : nat) (job : Job) (f : Job -> Job) :
  consistent t d fl -> nth_error fl n = Some job ->
  (forall r, j_id (f r) = j_id r) ->
  (forall r, j_attempts r = j_attempts job -> j_max_retries r = j_max_retries job ->
             attempts_ok r -> attempts_ok (f r)) ->
  consistent (update_jobs (j_id job) f t) d (remove_nth n fl).
Proof.
  intros (H1 & H2 & H3 & H4 & H5 & H6) Hn Hid Hok. repeat split; auto.
  - now rewrite map_id_update.
  - apply Forall_update; [assumption|]. intros r Hr Hrid.
    pose proof H5 as Hb. rewrite Forall_forall in Hb.
    destruct (Hb job (nth_error_In _ _ Hn)) as (row & Hrin & Hrowid & _ & Ha & Hm & _).
    assert (row = r) by (apply (unique_by_id t); congruence). subst row.
    rewrite Forall_forall in H3. apply Hok; auto.
  - apply (others_keep_backing t _ fl n job); auto.
    intros row Hrow Hne. now apply in_update_other.
  - now apply remove_nth_NoDup.
Qed.

Lemma consistent_settle_dead (t : list Job) (d : list dlq_row) (fl : list Job)
  (n : nat) (job : Job) (failed_at : Z) :
  consistent t d fl -> nth_error fl n = Some job ->
  has_dlq (j_id job) d = false ->
  j_max_retries job <= Z.of_nat (S (j_attempts job)) ->
  consistent (delete_jobs (j_id job) t)
    (d ++ [mkDlq (j_id job) (j_command job) (S (j_attempts job))
             (j_max_retries job) (j_created_at job) failed_at])
    (remove_nth n fl).
Proof.
  intros (H1 & H2 & H3 & H4 & H5 & H6) Hn Hfresh Hmax. repeat split; auto.
  - now apply filter_keeps_key.
  - apply snoc_keeps_key; [assumption|]. now apply has_dlq_false_iff.
  - now apply filter_keeps_all.
  - apply Forall_app. split; [assumption|]. constructor; [|constructor].
    unfold dead_ok. cbn [d_attempts d_max_retries].
    pose proof H5 as Hb. rewrite Forall_forall in Hb.
    destruct (Hb job (nth_error_In _ _ Hn)) as (row & Hrin & _ & _ & Ha & Hm & _).
    rewrite Forall_forall in H3. specialize (H3 row Hrin).
    unfold attempts_ok in H3. rewrite Ha, Hm in H3. lia.
  - apply (others_keep_backing t _ fl n job); auto.
    intros row Hrow Hne. now apply in_delete_other.
  - now apply remove_nth_NoDup.
Qed.

(** ** What one step does to the tables *)

Lemma fetch_job_cases (E : env) (busy : option JobQueue.stmt) (w : world) :
  (exists job,
      select_claimable (clock E (w_tick w)) (jobs (w_store w)) = Some job /\
      JobQueue.fetch_job E busy w =
      (Ok (Some job),
       mkWorld
         (mkStore
            (update_jobs (j_id job) (claimed_row (clock E (S (w_tick w))))
               (jobs (w_store w)))
            (dlq (w_store w)))
         (S (S (w_tick w))) (w_rand w) (w_out w))) \/
  (exists w', JobQueue.fetch_job E busy w = (Ok None, w') /\
              w_store w' = w_store w).
Proof.
  destruct busy as [s|].
  - right. unfold JobQueue.fetch_job.
    destruct s; run_monad;
      try (destruct (select_claimable _ _); run_monad);
      eexists; split; try reflexivity;
      destruct w as [[? ?] ? ? ?]; reflexivity.
  - destruct (select_claimable (clock E (w_tick w)) (jobs (w_store w)))
      as [job|] eqn:Hsel.
    + left. exists job. split; [reflexivity|]. now apply fetch_job_claims.
    + right. eexists. split; [now apply fetch_job_idle|]. reflexivity.
Qed.

(** The tables after a command are the tables before it, or one pending
    row with attempts 0 and a fresh id was appended to [jobs], [dlq] being
    kept or filtered. *)
Lemma cli_main_store (E : env) (c : Cli.command) (w : world) :
  w_store (snd (Cli.main E c w)) = w_store w \/
  exists r,
    has_job (j_id r) (jobs (w_store w)) = false /\
    j_attempts r = 0%nat /\ j_state r = pending /\
    jobs (w_store (snd (Cli.main E c w))) = jobs (w_store w) ++ [r] /\
    (dlq (w_store (snd (Cli.main E c w))) = dlq (w_store w) \/
     dlq (w_store (snd (Cli.main E c w))) = delete_dlq (j_id r) (dlq (w_store w))).
Proof.
  remember (Cli.main E c w) as X eqn:HX.
  destruct c as [[|job_data]|job_id]; unfold Cli.main, Cli.callback in HX.
  - left. subst X. reflexivity.
  - unfold Cli.enqueue in HX.
    destruct (jd_command job_data) as [command|] eqn:Hc;
      [|left; subst X; reflexivity].
    destruct (jd_id job_data) as [id|] eqn:Hid.
    + unfold load_config in HX. unfold bind at 1 in HX. unfold ret at 1 in HX.
      cbv iota beta in HX. unfold bind at 1 in HX. unfold ret at 1 in HX.
      cbv iota beta in HX. unfold catch in HX. unfold bind at 1 in HX.
      destruct (has_job id (jobs (w_store w))) eqn:Hj.
      * left.
        rewrite (enqueue_job_clash E job_data (config_file E) w id command Hid Hc Hj)
          in HX.
        subst X. reflexivity.
      * right.
        rewrite (enqueue_job_inserts E job_data (config_file E) w id command Hid Hc Hj)
          in HX.
        subst X. eexists.
        split; [|split; [|split; [|split; [reflexivity|left; reflexivity]]]];
          [exact Hj | reflexivity | reflexivity].
    + unfold load_config in HX. unfold bind at 1 in HX. unfold bind at 1 in HX.
      unfold uuid4 at 1 in HX. unfold ret at 1 in HX. cbv iota beta in HX.
      unfold bind at 1 in HX. unfold ret at 1 in HX.
      cbv iota beta in HX. unfold catch in HX. unfold bind at 1 in HX.
      set (w1 := mkWorld (w_store w) (w_tick w) (S (w_rand w)) (w_out w)) in HX.
      set (jd := mkJobData (Some (uuid E (w_rand w))) (Some command)
                   (jd_max_retries job_data)) in HX.
      assert (Hid' : jd_id jd = Some (uuid E (w_rand w))) by reflexivity.
      assert (Hc' : jd_command jd = Some command) by reflexivity.
      destruct (has_job (uuid E (w_rand w)) (jobs (w_store w1))) eqn:Hj.
      * left.
        rewrite (enqueue_job_clash E jd (config_file E) w1 _ command Hid' Hc' Hj)
          in HX.
        subst X. reflexivity.
      * right.
        rewrite (enqueue_job_inserts E jd (config_file E) w1 _ command Hid' Hc' Hj)
          in HX.
        subst X. eexists.
        split; [|split; [|split; [|split; [reflexivity|left; reflexivity]]]];
          [exact Hj | reflexivity | reflexivity].
  - unfold Cli.dlq_retry, load_config in HX. unfold bind at 1 in HX.
    unfold ret at 1 in HX. cbv iota beta in HX. unfold bind at 1 in HX.
    destruct (find_dlq job_id (dlq (w_store w))) as [d|] eqn:Hd.
    + destruct (has_job job_id (jobs (w_store w))) eqn:Hj.
      * left.
        rewrite (retry_dlq_job_clash E job_id (config_file E) w d Hd Hj) in HX.
        subst X. reflexivity.
      * right.
        rewrite (retry_dlq_job_moves E job_id (config_file E) w d Hd Hj) in HX.
        destruct (find_dlq_some _ _ _ Hd) as [_ Hdid].
        subst X. eexists.
        split; [|split; [|split; [|split; [reflexivity|right]]]].
        -- unfold retried_row. cbn [j_id]. now rewrite Hdid.
        -- reflexivity.
        -- reflexivity.
        -- unfold retried_row. cbn. now rewrite Hdid.
    + left. rewrite (retry_dlq_job_absent E job_id (config_file E) w Hd) in HX.
      subst X. reflexivity.
Qed.

Lemma handle_failure_cases (E : env) (config : Config) (job : Job) (w : world)
  (r : result unit) (job' : Job) (w' : world) :
  Worker.handle_failure E config job w = (r, job', w') ->
  (r = Ok tt /\
   ((exists next_run_at now,
        Z.of_nat (S (j_attempts job)) < j_max_retries job /\
        w_store w' =
        mkStore
          (update_jobs (j_id job)
             (failed_row (S (j_attempts job)) next_run_at now)
             (jobs (w_store w)))
          (dlq (w_store w))) \/
    (exists failed_at,
        j_max_retries job <= Z.of_nat (S (j_attempts job)) /\
        has_dlq (j_id job) (dlq (w_store w)) = false /\
        w_store w' =
        mkStore (delete_jobs (j_id job) (jobs (w_store w)))
          (dlq (w_store w) ++
           [mkDlq (j_id job) (j_command job) (S (j_attempts job))
              (j_max_retries job) (j_created_at job) failed_at])))) \/
  (w_store w' = w_store w /\ job' = job /\ exists e, r = Raise e) \/
  (w_store w' = w_store w /\
   job' = Worker.set_attempts job (S (j_attempts job)) /\
   j_max_retries job <= Z.of_nat (S (j_attempts job)) /\
   has_dlq (j_id job) (dlq (w_store w)) = true /\
   exists e, r = Raise e).
Proof.
  destruct (Z_lt_le_dec (Z.of_nat (S (j_attempts job))) (j_max_retries job))
    as [Hlt|Hle].
  - rewrite (handle_failure_retries E config job w Hlt).
    unfold bind at 1. unfold datetime_now at 1. cbv iota beta.
    unfold bind at 1. unfold Worker.plus_seconds.
    destruct (Datetime.timedelta _) as [delta|].
    + destruct (Datetime.add _ _) as [next_run_at|].
      * unfold ret at 1. cbv iota beta. rewrite schedule_retry_eq.
        intros H. inversion H; subst; clear H. left. split; [reflexivity|].
        left. do 2 eexists. split; [exact Hlt|]. reflexivity.
      * unfold raise at 1. cbv iota beta.
        intros H. inversion H; subst; clear H. right. left.
        split; [reflexivity|]. split; [reflexivity|]. eauto.
    + unfold raise at 1. cbv iota beta.
      intros H. inversion H; subst; clear H. right. left.
      split; [reflexivity|]. split; [reflexivity|]. eauto.
  - rewrite (handle_failure_gives_up E config job w Hle). cbv zeta.
    destruct (has_dlq (j_id job) (dlq (w_store w))) eqn:Hd.
    + rewrite move_to_dlq_clash by exact Hd.
      intros H. inversion H; subst; clear H. right. right.
      repeat split; eauto.
    + rewrite move_to_dlq_moves by exact Hd.
      intros H. inversion H; subst; clear H. left. split; [reflexivity|].
      right. eexists. split; [exact Hle|]. split; reflexivity.
Qed.

(** Whatever the command did, [execute_job] settles the snapshot in one of
    the four ways of [settled]. *)
Lemma execute_job_settles (E : env) (config : Config) (job : Job)
  (run : Worker.run_result) (w : world) :
  settled job (w_store w) (w_store (snd (Worker.execute_job E config job run w))).
Proof.
  assert (Hone : forall w0,
             settled job (w_store w0)
               (w_store (snd (Worker.handle_failure E config job w0)))).
  { intros w0.
    destruct (Worker.handle_failure E config job w0) as [[r job'] w'] eqn:Hh.
    destruct (handle_failure_cases _ _ _ _ _ _ _ Hh)
      as [[_ [Hs | Hs]] | [(Hs & _) | (Hs & _)]]; cbn [snd];
      [right; right; left; exact Hs | right; right; right; exact Hs
      | left; exact Hs | left; exact Hs]. }
  unfold Worker.execute_job. destruct run as [returncode| |]; [|apply Hone..].
  destruct (returncode =? 0).
  - rewrite complete_job_eq. cbn [snd w_store]. right. left. eexists. reflexivity.
  - destruct (Worker.handle_failure E config job w) as [[r job'] w'] eqn:Hh.
    destruct r as [[]|e]; [specialize (Hone w); now rewrite Hh in Hone|].
    destruct (handle_failure_cases _ _ _ _ _ _ _ Hh)
      as [[Hr _] | [(Hs & -> & _) | (Hs & -> & Hle & Hd & _)]]; [discriminate| |].
    + specialize (Hone w'). rewrite Hs in Hone. exact Hone.
    + (* the move raised: the second call raises in the same way *)
      rewrite handle_failure_gives_up
        by (cbn [Worker.set_attempts j_attempts j_max_retries]; lia).
      cbv zeta. rewrite move_to_dlq_clash
        by (cbn [Worker.set_attempts j_id]; now rewrite Hs).
      cbn [snd]. left. exact Hs.
Qed.

(** ** The invariant of the running system *)

Lemma consistent_settled (t : list Job) (d : list dlq_row) (fl : list Job)
  (n : nat) (job : Job) (st' : store) :
  consistent t d fl -> nth_error fl n = Some job ->
  settled job (mkStore t d) st' ->
  consistent (jobs st') (dlq st') (remove_nth n fl).
Proof.
  intros Hc Hn [-> | [(now & ->) | [(nxt & now & Hlt & ->) | (ts & Hle & Hd & ->)]]];
    cbn [jobs dlq].
  - now apply consistent_drop.
  - apply consistent_settle_update; auto.
  - apply consistent_settle_update; auto. intros r _ Hm _.
    right. cbn [failed_row j_attempts j_max_retries]. now rewrite Hm.
  - cbn [jobs dlq] in Hd. now apply consistent_settle_dead.
Qed.

Lemma step_invariant (E : env) (a : action) (s : sys) :
  invariant s -> invariant (step E a s).
Proof.
  unfold invariant. intros Hinv. destruct a as [c|busy|n config run]; cbn [step].
  - cbn [sys_world in_flight].
    destruct (cli_main_store E c (sys_world s))
      as [-> | (r & Hfresh & Hzero & _ & -> & [-> | ->])]; auto.
    + now apply consistent_insert.
    + apply consistent_delete_dlq. now apply consistent_insert.
  - destruct (fetch_job_cases E busy (sys_world s))
      as [(job & Hsel & ->) | (w' & -> & Hst)].
    + cbn [sys_world in_flight w_store jobs dlq].
      destruct (select_claimable_spec _ _ _ Hsel) as (Hin & Hcl & _).
      destruct (claimable_state _ _ Hcl) as [Hstate _].
      apply consistent_claim; auto.
      destruct Hstate as [-> | ->]; discriminate.
    + cbn [sys_world in_flight]. now rewrite Hst.
  - destruct (nth_error (in_flight s) n) as [job|] eqn:Hn; [|exact Hinv].
    cbn [sys_world in_flight].
    pose proof (execute_job_settles E config job run (sys_world s)) as H.
    destruct (w_store (sys_world s)) as [t d] eqn:Hst. cbn [jobs dlq] in Hinv.
    exact (consistent_settled t d (in_flight s) n job _ Hinv Hn H).
Qed.

Lemma run_invariant (E : env) (l : list action) (s : sys) :
  invariant s -> invariant (run E l s).
Proof.
  unfold run. revert s. induction l as [|a l IH]; intros s Hs; simpl; [exact Hs|].
  apply IH. now apply step_invariant.
Qed.

Lemma start_invariant : invariant start.
Proof. repeat split; constructor. Qed.


Lemma find_job_delete_other (id id' : string) (t : list Job) :
  id' <> id -> find_job id' (delete_jobs id t) = find_job id' t.
Proof.
  intros Hne. unfold find_job, delete_jobs.
  induction t as [|x t IH]; simpl; [reflexivity|].
  destruct (String.eqb (j_id x) id) eqn:Hx; simpl.
  - apply String.eqb_eq in Hx.
    destruct (String.eqb (j_id x) id') eqn:Hx'; [|exact IH].
    apply String.eqb_eq in Hx'. congruence.
  - destruct (String.eqb (j_id x) id'); [reflexivity|exact IH].
Qed.

Lemma find_job_app_found (id : string) (t : list Job) (r x : Job) :
  find_job id t = Some r -> find_job id (t ++ [x]) = Some r.
Proof. intros H. rewrite find_job_app, H. reflexivity. Qed.




(** X4: ids stay unique.  In every state reached from the empty store no
    id occurs twice in [jobs] and none twice in [dlq] (the same id may be in
    both tables). *)
Theorem ids_stay_unique (E : env) (l : list action) :
  NoDup (map j_id (jobs (w_store (sys_world (run E l start))))) /\
  NoDup (map d_id (dlq (w_store (sys_world (run E l start))))).
Proof.
  destruct (run_invariant E l start start_invariant) as (H1 & H2 & _).
  split; assumption.
Qed.

(** X5: the history of a row.  In a consistent state, if an id is in
    [jobs] before and after a step, then its command, max_retries and
    created_at are the same and its attempts have not decreased. *)
Theorem step_row_history (E : env) (a : action) (s : sys) (id : string)
  (r r' : Job) :
  invariant s ->
  find_job id (jobs (w_store (sys_world s))) = Some r ->
  find_job id (jobs (w_store (sys_world (step E a s)))) = Some r' ->
  j_command r' = j_command r /\
  j_max_retries r' = j_max_retries r /\
  j_created_at r' = j_created_at r /\
  (j_attempts r <= j_attempts r')%nat.
Proof.
  intros Hinv Hr Hr'. destruct a as [c|busy|n config run]; cbn [step] in Hr'.
  - cbn [sys_world] in Hr'.
    destruct (cli_main_store E c (sys_world s))
      as [Hst | (x & _ & _ & _ & Hjobs & _)].
    + rewrite Hst, Hr in Hr'. inversion Hr'; subst. auto.
    + rewrite Hjobs, (find_job_app_found _ _ _ _ Hr) in Hr'.
      inversion Hr'; subst. auto.
  - destruct (fetch_job_cases E busy (sys_world s))
      as [(job & Hsel & Hf) | (w' & Hf & Hst)]; rewrite Hf in Hr';
      cbn [sys_world w_store jobs] in Hr'.
    + rewrite find_job_update, Hr in Hr' by reflexivity. cbn [option_map] in Hr'.
      inversion Hr'; subst.
      destruct (String.eqb (j_id r) (j_id job)); cbn; auto.
    + rewrite Hst, Hr in Hr'. inversion Hr'; subst. auto.
  - destruct (nth_error (in_flight s) n) as [job|] eqn:Hn.
    2:{ rewrite Hr in Hr'. inversion Hr'; subst. auto. }
    cbn [sys_world] in Hr'.
    destruct (find_job_some _ _ _ Hr) as [Hin Hid].
    destruct (execute_job_settles E config job run (sys_world s))
      as [Hst | [(now & Hst) | [(nxt & now & Hlt & Hst) | (ts & Hle & Hd & Hst)]]];
      rewrite Hst in Hr'; cbn [jobs] in Hr'.
    + rewrite Hr in Hr'. inversion Hr'; subst. auto.
    + rewrite find_job_update, Hr in Hr' by reflexivity. cbn [option_map] in Hr'.
      inversion Hr'; subst.
      destruct (String.eqb (j_id r) (j_id job)); cbn; auto.
    + rewrite find_job_update, Hr in Hr' by reflexivity. cbn [option_map] in Hr'.
      inversion Hr'; subst.
      destruct (String.eqb (j_id r) (j_id job)) eqn:Hsame; cbn; auto.
      apply String.eqb_eq in Hsame.
      destruct Hinv as (H1 & _ & _ & _ & H5 & _). rewrite Forall_forall in H5.
      destruct (H5 job (nth_error_In _ _ Hn)) as (row & Hrin & Hrid & _ & Ha & _).
      assert (row = r) by (apply (unique_by_id _ _ _ H1); congruence).
      subst row. repeat split; auto. lia.
    + destruct (String.eqb id (j_id job)) eqn:Hsame.
      * apply String.eqb_eq in Hsame. rewrite Hsame in Hr'.
        pose proof (has_job_delete (j_id job) (jobs (w_store (sys_world s)))) as Hn'.
        rewrite has_job_find, Hr' in Hn'. discriminate.
      * apply String.eqb_neq in Hsame.
        rewrite find_job_delete_other, Hr in Hr' by exact Hsame.
        inversion Hr'; subst. auto.
Qed.

(** ** More of the store *)

Lemma select_claimable_none (now : Z) (t : list Job) :
  select_claimable now t = None <->
  forall r, In r t -> claimable now r = false.
Proof.
  split.
  - intros H r Hin. destruct (claimable now r) eqn:Hc; [|reflexivity].
    destruct (select_claimable_some now t r Hin Hc) as [m Hm]. congruence.
  - intros H. destruct (select_claimable now t) as [m|] eqn:Hm; [|reflexivity].
    destruct (select_claimable_spec _ _ _ Hm) as (Hin & Hc & _).
    rewrite (H m Hin) in Hc. discriminate.
Qed.

Lemma update_jobs_absent (id : string) (f : Job -> Job) (t : list Job) :
  has_job id t = false -> update_jobs id f t = t.
Proof.
  unfold has_job, update_jobs. induction t as [|x t IH]; simpl; [reflexivity|].
  destruct (String.eqb (j_id x) id); simpl; [discriminate|].
  intros H. now rewrite IH.
Qed.

Lemma delete_jobs_absent (id : string) (t : list Job) :
  has_job id t = false -> delete_jobs id t = t.
Proof.
  unfold has_job, delete_jobs. induction t as [|x t IH]; simpl; [reflexivity|].
  destruct (String.eqb (j_id x) id); simpl; [discriminate|].
  intros H. now rewrite IH.
Qed.


Lemma find_dlq_app (id : string) (t : list dlq_row) (r : dlq_row) :
  find_dlq id (t ++ [r]) =
  match find_dlq id t with
  | Some x => Some x
  | None => if String.eqb (d_id r) id then Some r else None
  end.
Proof.
  unfold find_dlq. induction t as [|x t IH]; simpl; [reflexivity|].
  destruct (String.eqb (d_id x) id); auto.
Qed.

Lemma find_job_update_other (id id' : string) (f : Job -> Job) (t : list Job) :
  (forall r, j_id (f r) = j_id r) -> id' <> id ->
  find_job id' (update_jobs id f t) = find_job id' t.
Proof.
  intros Hf Hne. rewrite find_job_update by exact Hf.
  destruct (find_job id' t) as [r|] eqn:Hr; [|reflexivity].
  destruct (find_job_some _ _ _ Hr) as [_ Hid]. cbn [option_map].
  assert (Hneq : String.eqb (j_id r) id = false)
    by (apply String.eqb_neq; congruence).
  now rewrite Hneq.
Qed.

(** X6: with the backend free, [fetch_job] returns [None] exactly when no
    row of [jobs] is [pending] or [failed] with [run_at <= now], and then it
    leaves the tables as they are. *)
Theorem fetch_job_none_iff (E : env) (w : world) :
  (fst (JobQueue.fetch_job E None w) = Ok None <->
   forall r, In r (jobs (w_store w)) ->
             claimable (clock E (w_tick w)) r = false) /\
  (fst (JobQueue.fetch_job E None w) = Ok None ->
   w_store (snd (JobQueue.fetch_job E None w)) = w_store w).
Proof.
  destruct (select_claimable (clock E (w_tick w)) (jobs (w_store w)))
    as [job|] eqn:Hsel.
  - rewrite (fetch_job_claims E w job Hsel). cbn [fst snd]. split.
    + split; [discriminate|]. intros H.
      apply select_claimable_none in H. congruence.
    + discriminate.
  - rewrite (fetch_job_idle E w Hsel). cbn [fst snd]. split; [|reflexivity].
    split; [|reflexivity]. intros _. now apply select_claimable_none.
Qed.

(** X7: settling an id that is not in [jobs].  [complete_job] and
    [schedule_retry] return normally and leave both tables unchanged;
    [move_to_dlq] still appends the snapshot to [dlq] (when the DLQ does not
    hold the id) and leaves [jobs] unchanged. *)
Theorem settle_absent_id (E : env) (job : Job) (attempts : nat)
  (next_run_at : Z) (w : world) :
  has_job (j_id job) (jobs (w_store w)) = false ->
  (fst (JobQueue.complete_job E (j_id job) w) = Ok tt /\
   w_store (snd (JobQueue.complete_job E (j_id job) w)) = w_store w) /\
  (fst (JobQueue.schedule_retry E (j_id job) attempts next_run_at w) = Ok tt /\
   w_store (snd (JobQueue.schedule_retry E (j_id job) attempts next_run_at w))
     = w_store w) /\
  (has_dlq (j_id job) (dlq (w_store w)) = false ->
   fst (JobQueue.move_to_dlq E job w) = Ok tt /\
   jobs (w_store (snd (JobQueue.move_to_dlq E job w))) = jobs (w_store w) /\
   find_dlq (j_id job) (dlq (w_store (snd (JobQueue.move_to_dlq E job w))))
     = Some (mkDlq (j_id job) (j_command job) (j_attempts job)
               (j_max_retries job) (j_created_at job)
               (current_timestamp E (w_tick w)))).
Proof.
  intros Hj. split; [|split].
  - rewrite complete_job_eq. cbn [fst snd w_store].
    rewrite update_jobs_absent by exact Hj. destruct (w_store w); auto.
  - rewrite schedule_retry_eq. cbn [fst snd w_store].
    rewrite update_jobs_absent by exact Hj. destruct (w_store w); auto.
  - intros Hd. rewrite move_to_dlq_moves by exact Hd.
    cbn [fst snd w_store jobs dlq]. split; [reflexivity|].
    split; [now apply delete_jobs_absent|].
    rewrite find_dlq_app. rewrite has_dlq_find in Hd.
    destruct (find_dlq (j_id job) (dlq (w_store w))); [discriminate|].
    unfold dead_row. cbn [d_id]. now rewrite String.eqb_refl.
Qed.

(** X8: [schedule_retry] returns normally and sets [state] to [failed],
    [attempts], [run_at] and [updated_at] of the rows of the given id; their
    id, command, max_retries and created_at stay; every other row stays in
    place unchanged, and [dlq] is unchanged. *)
Theorem schedule_retry_frame (E : env) (job_id : string) (attempts : nat)
  (next_run_at : Z) (w : world) :
  exists w',
    JobQueue.schedule_retry E job_id attempts next_run_at w = (Ok tt, w') /\
    dlq (w_store w') = dlq (w_store w) /\
    List.length (jobs (w_store w')) = List.length (jobs (w_store w)) /\
    forall n r, nth_error (jobs (w_store w)) n = Some r ->
      exists r', nth_error (jobs (w_store w')) n = Some r' /\
        j_id r' = j_id r /\ j_command r' = j_command r /\
        j_max_retries r' = j_max_retries r /\
        j_created_at r' = j_created_at r /\
        (j_id r <> job_id -> r' = r) /\
        (j_id r = job_id ->
           j_state r' = failed /\ j_attempts r' = attempts /\
           j_run_at r' = next_run_at /\
           j_updated_at r' = clock E (w_tick w)).
Proof.
  eexists. split; [apply schedule_retry_eq|].
  cbn [w_store jobs dlq]. split; [reflexivity|].
  split; [unfold update_jobs; apply List.length_map|].
  intros n r Hn. rewrite nth_error_update, Hn. cbn [option_map].
  eexists. split; [reflexivity|].
  destruct (String.eqb (j_id r) job_id) eqn:Hid.
  - apply String.eqb_eq in Hid. cbn. repeat split; auto. congruence.
  - apply String.eqb_neq in Hid. repeat split; auto; congruence.
Qed.



(** ** More of the worker *)

Lemma find_dlq_app_other (id : string) (t : list dlq_row) (r : dlq_row) :
  d_id r <> id -> find_dlq id (t ++ [r]) = find_dlq id t.
Proof.
  intros Hne. rewrite find_dlq_app. apply String.eqb_neq in Hne. rewrite Hne.
  destruct (find_dlq id t); reflexivity.
Qed.

(** X11: a worker can die on a failed job.  When the failed snapshot is at
    its last attempt and the DLQ already holds its id, [move_to_dlq] raises
    [IntegrityError].  After a non-zero exit status the [try] catches it and
    calls [handle_failure] a second time, which raises again: the exception
    leaves [execute_job], the tables are untouched (the row stays
    [processing]) and the snapshot's attempts were raised twice.  After a
    timeout the first exception already leaves [execute_job]. *)
Theorem execute_job_raises_on_dlq_clash (E : env) (config : Config) (job : Job)
  (returncode : Z) (w : world) :
  returncode <> 0 ->
  j_max_retries job <= Z.of_nat (S (j_attempts job)) ->
  has_dlq (j_id job) (dlq (w_store w)) = true ->
  Worker.execute_job E config job (Worker.Returned returncode) w =
    (Raise (IntegrityError "UNIQUE constraint failed: dlq.id"),
     Worker.set_attempts job (S (S (j_attempts job))), w) /\
  Worker.execute_job E config job Worker.TimeoutExpired w =
    (Raise (IntegrityError "UNIQUE constraint failed: dlq.id"),
     Worker.set_attempts job (S (j_attempts job)), w).
Proof.
  intros Hrc Hle Hd.
  assert (H1 : Worker.handle_failure E config job w =
               (Raise (IntegrityError "UNIQUE constraint failed: dlq.id"),
                Worker.set_attempts job (S (j_attempts job)), w)).
  { rewrite handle_failure_gives_up by exact Hle. cbv zeta.
    rewrite move_to_dlq_clash by exact Hd. reflexivity. }
  unfold Worker.execute_job. apply Z.eqb_neq in Hrc. rewrite Hrc, H1.
  split; [|reflexivity].
  rewrite handle_failure_gives_up
    by (cbn [Worker.set_attempts j_attempts j_max_retries]; lia).
  cbv zeta. rewrite move_to_dlq_clash by exact Hd. reflexivity.
Qed.

(** X12: [execute_job] touches only its own id.  Whatever the command did,
    the row found under any other id in [jobs] and in [dlq] is the same
    before and after, and no row of [dlq] is removed. *)
Theorem execute_job_frame (E : env) (config : Config) (job : Job)
  (run : Worker.run_result) (w : world) :
  let w' := snd (Worker.execute_job E config job run w) in
  (forall id, id <> j_id job ->
     find_job id (jobs (w_store w')) = find_job id (jobs (w_store w))) /\
  (forall id, id <> j_id job ->
     find_dlq id (dlq (w_store w')) = find_dlq id (dlq (w_store w))) /\
  (forall d, In d (dlq (w_store w)) -> In d (dlq (w_store w'))).
Proof.
  intros w'. subst w'.
  destruct (execute_job_settles E config job run w)
    as [-> | [(now & ->) | [(nxt & now & _ & ->) | (ts & _ & _ & ->)]]];
    cbn [jobs dlq]; (split; [|split]); auto.
  - intros id Hne. now apply find_job_update_other.
  - intros id Hne. now apply find_job_update_other.
  - intros id Hne. now apply find_job_delete_other.
  - intros id Hne. apply find_dlq_app_other. cbn [d_id]. congruence.
  - intros d Hd. apply in_or_app. now left.
Qed.




(** ** The listings *)

Section OrderBy.

Context {A : Type} (key : A -> Z).

Lemma insert_by_perm (x : A) (l : list A) :
  Permutation (insert_by key x l) (x :: l).
Proof.
  induction l as [|y l IH]; simpl; [reflexivity|].
  destruct (key x <=? key y); [reflexivity|].
  rewrite IH. apply perm_swap.
Qed.

Lemma order_by_perm (l : list A) : Permutation (order_by key l) l.
Proof.
  induction l as [|x l IH]; simpl; [reflexivity|].
  rewrite insert_by_perm. now constructor.
Qed.

Lemma insert_by_sorted (x : A) (l : list A) :
  StronglySorted (fun a b => key a <= key b) l ->
  StronglySorted (fun a b => key a <= key b) (insert_by key x l).
Proof.
  induction l as [|y l IH]; simpl; intros Hs.
  - repeat constructor.
  - inversion Hs as [|? ? Hs' Hall]; subst.
    destruct (key x <=? key y) eqn:Hc.
    + apply Z.leb_le in Hc. constructor; [assumption|].
      constructor; [assumption|].
      eapply Forall_impl; [|exact Hall]. simpl. intros; lia.
    + apply Z.leb_gt in Hc. constructor; [auto|].
      apply (Permutation_Forall (Permutation_sym (insert_by_perm x l))).
      constructor; [lia|assumption].
Qed.

Lemma order_by_sorted (l : list A) :
  StronglySorted (fun a b => key a <= key b) (order_by key l).
Proof.
  induction l as [|x l IH]; simpl; [constructor|]. now apply insert_by_sorted.
Qed.

End OrderBy.

(** X14: [list_jobs(state)] changes nothing and returns exactly the rows of
    [jobs] in that state, each as often as it is stored, in ascending order
    of [created_at]. *)
Theorem list_jobs_sorted (state : job_state) (w : world) :
  exists l,
    JobQueue.list_jobs state w = (Ok l, w) /\
    Permutation l
      (filter (fun r => job_state_eqb (j_state r) state) (jobs (w_store w))) /\
    StronglySorted (fun a b => j_created_at a <= j_created_at b) l /\
    (forall r, In r l <-> In r (jobs (w_store w)) /\ j_state r = state).
Proof.
  eexists. split; [reflexivity|].
  split; [apply order_by_perm|]. split; [apply order_by_sorted|].
  intros r. split.
  - intros H. apply (Permutation_in _ (order_by_perm j_created_at _)) in H.
    apply filter_In in H. destruct H as [Hin Hs]. split; [assumption|].
    destruct (j_state r), state; simpl in Hs; congruence.
  - intros [Hin Hs].
    apply (Permutation_in _ (Permutation_sym (order_by_perm j_created_at _))).
    apply filter_In. split; [assumption|]. subst state.
    destruct (j_state r); reflexivity.
Qed.

(** X15: [list_dlq()] changes nothing and returns the rows of [dlq], each
    once per stored row, in ascending order of [failed_at]. *)
Theorem list_dlq_sorted (w : world) :
  exists l,
    JobQueue.list_dlq w = (Ok l, w) /\
    Permutation l (dlq (w_store w)) /\
    StronglySorted (fun a b => d_failed_at a <= d_failed_at b) l.
Proof.
  eexists. split; [reflexivity|].
  split; [apply order_by_perm | apply order_by_sorted].
Qed.

(** ** status *)

Lemma stats_get_group (state : job_state) (t : list Job) :
  Control.stats_get state (JobQueue.group_by_state t) = JobQueue.count_state state t.
Proof.
  unfold Control.stats_get, JobQueue.group_by_state. cbn [map filter].
  destruct (JobQueue.count_state completed t) as [|c] eqn:Hc;
  destruct (JobQueue.count_state failed t) as [|f] eqn:Hf;
  destruct (JobQueue.count_state pending t) as [|p] eqn:Hp;
  destruct (JobQueue.count_state processing t) as [|q] eqn:Hq;
  destruct state; cbn; congruence.
Qed.

Lemma count_states_total (t : list Job) :
  (JobQueue.count_state pending t + JobQueue.count_state processing t +
   JobQueue.count_state failed t + JobQueue.count_state completed t)%nat
  = List.length t.
Proof.
  unfold JobQueue.count_state. induction t as [|r t IH]; [reflexivity|].
  cbn [filter List.length]. destruct (j_state r); cbn [job_state_eqb List.length]; lia.
Qed.

(** X16: [status] leaves the store alone and prints, after the worker
    line, for each of the four states the number of rows of [jobs] in that
    state, then as total the number of all rows of [jobs], then the number
    of rows of [dlq]. *)
Theorem status_report (o : ConfigPy.os) (fs : ConfigPy.files) (w : world)
  (running : bool) :
  ConfigPy.is_worker_running o fs = Ok running ->
  exists w',
    Control.status o fs w = (Ok tt, w') /\
    w_store w' = w_store w /\
    w_out w' =
      w_out w ++
      [(Stdout, "--- Worker Status ---");
       (Stdout,
        if running
        then String.append "  Active (PID: "
               (String.append
                  (match ConfigPy.read_pid fs with
                   | Some pid => str pid
                   | None => "None"
                   end) ")")
        else "  Stopped");
       (Stdout, String.append Control.newline "--- Job Queue ---");
       (Stdout, String.append "  Pending: "
                  (str (Z.of_nat (JobQueue.count_state pending (jobs (w_store w))))));
       (Stdout, String.append "  Processing: "
                  (str (Z.of_nat (JobQueue.count_state processing (jobs (w_store w))))));
       (Stdout, String.append "  Failed: "
                  (str (Z.of_nat (JobQueue.count_state failed (jobs (w_store w))))));
       (Stdout, String.append "  Completed: "
                  (str (Z.of_nat (JobQueue.count_state completed (jobs (w_store w))))));
       (Stdout, String.append "  Total: "
                  (str (Z.of_nat (List.length (jobs (w_store w))))));
       (Stdout, String.append Control.newline "--- Dead Letter Queue ---");
       (Stdout, String.append "  Dead: "
                  (str (Z.of_nat (List.length (dlq (w_store w))))))].
Proof.
  intros Hrun. unfold Control.status, JobQueue.get_status, Control.count_lines.
  run_monad. rewrite Hrun. cbn [JobQueue.workers_running JobQueue.job_stats
                                JobQueue.dlq_count].
  rewrite !stats_get_group.
  replace (0 + JobQueue.count_state pending (jobs (w_store w)) +
           JobQueue.count_state processing (jobs (w_store w)) +
           JobQueue.count_state failed (jobs (w_store w)) +
           JobQueue.count_state completed (jobs (w_store w)))%nat
    with (List.length (jobs (w_store w)))
    by (rewrite <- (count_states_total (jobs (w_store w))); lia).
  destruct running; run_monad;
    (eexists; split; [reflexivity|]; split; [reflexivity|];
     cbn [w_out]; rewrite <- !app_assoc; reflexivity).
Qed.

(** ** config.py and the commands on it *)

Section Dicts.

Import ConfigPy.

Lemma get_app (k : string) (d1 d2 : dict) :
  get k (d1 ++ d2) = match get k d1 with Some v => Some v | None => get k d2 end.
Proof.
  induction d1 as [|[k' v'] d1 IH]; simpl; [reflexivity|].
  destruct (String.eqb k' k); auto.
Qed.

Lemma get_setdefault (k k' : string) (v : Z) (d : dict) :
  get k (setdefault k' v d) =
  match get k d with
  | Some x => Some x
  | None => if String.eqb k' k then Some v else None
  end.
Proof.
  unfold setdefault. destruct (get k' d) as [x|] eqn:Hk'.
  - destruct (get k d) eqn:Hk; [reflexivity|].
    destruct (String.eqb k' k) eqn:Heq; [|reflexivity].
    apply String.eqb_eq in Heq. congruence.
  - rewrite get_app. simpl. destruct (get k d); reflexivity.
Qed.

Lemma setdefault_present (k : string) (v x : Z) (d : dict) :
  get k d = Some x -> setdefault k v d = d.
Proof. intros H. unfold setdefault. now rewrite H. Qed.

Lemma get_setitem_same (k : string) (v : Z) (d : dict) :
  get k (setitem k v d) = Some v.
Proof.
  induction d as [|[k' v'] d IH]; simpl.
  - now rewrite String.eqb_refl.
  - destruct (String.eqb k' k) eqn:Heq; simpl; rewrite Heq; auto.
Qed.

Lemma get_setitem_other (k k0 : string) (v : Z) (d : dict) :
  k0 <> k -> get k0 (setitem k v d) = get k0 d.
Proof.
  intros Hne. induction d as [|[k' v'] d IH]; simpl.
  - apply String.eqb_neq in Hne. rewrite String.eqb_sym in Hne. now rewrite Hne.
  - destruct (String.eqb k' k) eqn:Heq; simpl.
    + apply String.eqb_eq in Heq. subst k'.
      assert (H : String.eqb k k0 = false)
        by (apply String.eqb_neq; congruence).
      now rewrite H.
    + destruct (String.eqb k' k0); auto.
Qed.

Lemma load_config_get (fs : files) (k : string) :
  get k (load_config fs) =
  match f_config fs with
  | Object d =>
      match get k d with
      | Some v => Some v
      | None => get k DEFAULT_CONFIG
      end
  | _ => get k DEFAULT_CONFIG
  end.
Proof.
  unfold load_config. destruct (f_config fs) as [| |d]; try reflexivity.
  cbn [fold_left DEFAULT_CONFIG fst snd]. rewrite !get_setdefault.
  destruct (get k d); [reflexivity|]. unfold DEFAULT_CONFIG. cbn [get].
  destruct (String.eqb "max_retries" k); [reflexivity|].
  destruct (String.eqb "backoff_base" k); reflexivity.
Qed.

End Dicts.


(** X18: [config set KEY VALUE] with an integer value saves a file from
    which [load_config] returns that value under KEY and, under every other
    key, what [load_config] returned before; the pid file is not touched.
    With a value that is no integer the files are left as they are. *)
Theorem config_set_round_trip (key : Control.config_key) (value : option Z)
  (fs : ConfigPy.files) :
  let fs' := fst (Control.set key value fs) in
  match value with
  | Some v =>
      ConfigPy.get (Control.key_name key) (ConfigPy.load_config fs') = Some v /\
      (forall k, k <> Control.key_name key ->
         ConfigPy.get k (ConfigPy.load_config fs')
         = ConfigPy.get k (ConfigPy.load_config fs)) /\
      ConfigPy.f_pid fs' = ConfigPy.f_pid fs
  | None => fs' = fs
  end.
Proof.
  destruct value as [v|]; [|reflexivity]. cbn [Control.set fst].
  split; [|split; [|reflexivity]].
  - rewrite load_config_get. cbn [ConfigPy.save_config ConfigPy.f_config].
    now rewrite get_setitem_same.
  - intros k Hne. rewrite (load_config_get (ConfigPy.save_config _ _)).
    cbn [ConfigPy.save_config ConfigPy.f_config].
    rewrite get_setitem_other by exact Hne.
    destruct (ConfigPy.get k (ConfigPy.load_config fs)) as [x|] eqn:Hk;
      [reflexivity|].
    rewrite load_config_get in Hk.
    destruct (ConfigPy.f_config fs) as [| |d]; try exact Hk.
    destruct (ConfigPy.get k d); [discriminate|exact Hk].
Qed.

(** ** worker stop *)

(** X19: [worker stop] never touches [config.json]; it delivers at most
    one signal, SIGTERM, and only to the non-zero pid recorded in the pid
    file; it removes the pid file exactly when that process does not exist;
    and on the files it is idempotent: a second [worker stop] leaves them as
    the first did. *)
Theorem stop_is_safe (o : ConfigPy.os) (fs : ConfigPy.files) :
  let '(fs', out, sent) := Control.stop o fs in
  ConfigPy.f_config fs' = ConfigPy.f_config fs /\
  (forall pid sig, In (pid, sig) sent ->
     sig = ConfigPy.SIGTERM /\ ConfigPy.read_pid fs = Some pid /\ pid <> 0 /\
     sent = [(pid, sig)]) /\
  (fs' <> fs ->
   fs' = ConfigPy.remove_pid fs /\
   exists pid, ConfigPy.read_pid fs = Some pid /\
               ConfigPy.kill o pid ConfigPy.SIGTERM = ConfigPy.NoSuchProcess) /\
  fst (fst (Control.stop o fs')) = fs'.
Proof.
  unfold Control.stop.
  destruct (ConfigPy.read_pid fs) as [pid|] eqn:Hpid;
    [destruct (pid =? 0) eqn:Hz;
       [|destruct (ConfigPy.kill o pid ConfigPy.SIGTERM) eqn:Hk]|];
    (split; [reflexivity|]); (split; [|split]).
  - intros p s H. destruct H.
  - intros H. exfalso. apply H. reflexivity.
  - rewrite Hpid, Hz. reflexivity.
  - intros p s [H|H]; [|destruct H]. inversion H; subst.
    apply Z.eqb_neq in Hz. auto.
  - intros H. exfalso. apply H. reflexivity.
  - rewrite Hpid, Hz, Hk. reflexivity.
  - intros p s H. destruct H.
  - intros _. split; [reflexivity|]. eauto.
  - reflexivity.
  - intros p s H. destruct H.
  - intros H. exfalso. apply H. reflexivity.
  - rewrite Hpid, Hz, Hk. reflexivity.
  - intros p s H. destruct H.
  - intros H. exfalso. apply H. reflexivity.
  - rewrite Hpid, Hz, Hk. reflexivity.
  - intros p s H. destruct H.
  - intros H. exfalso. apply H. reflexivity.
  - rewrite Hpid. reflexivity.
Qed.

(** ** Exit status of [enqueue] and [dlq retry] *)


(** ** Concrete runs of the further theorems *)

Lemma s_claimed_invariant : invariant s_claimed.
Proof.
  unfold invariant, consistent. vm_compute jobs. vm_compute dlq.
  cbn [in_flight s_claimed].
  split; [|split; [|split; [|split; [|split]]]].
  - repeat constructor; cbn; intuition discriminate.
  - constructor.
  - repeat constructor; left; reflexivity.
  - constructor.
  - repeat constructor. exists stored_b. split; [left; reflexivity|].
    repeat split.
  - repeat constructor; cbn; intuition.
Qed.


Lemma step_row_history_witness :
  (j_attempts stored_b <= 1)%nat /\
  j_created_at stored_b = 63900000000000000.
Proof.
  destruct (step_row_history E0 (Settle 0 DEFAULT_CONFIG (Worker.Returned 1))
              s_claimed "b" stored_b
              (mkJob "b" "true" failed 1 3 63900000002002000
                 63900000000000000 63900000000002000)
              s_claimed_invariant) as (_ & _ & Hc & Ha).
  - vm_compute. reflexivity.
  - vm_compute. reflexivity.
  - split; [exact Ha | symmetry; exact Hc].
Defined.

Lemma settle_absent_id_witness :
  w_store (snd (JobQueue.complete_job E0 "j2" empty)) = w_store empty /\
  fst (JobQueue.move_to_dlq E0 row_j2 empty) = Ok tt.
Proof.
  destruct (settle_absent_id E0 row_j2 1 0 empty eq_refl)
    as ((_ & Hc) & _ & Hm).
  split; [exact Hc|]. exact (proj1 (Hm eq_refl)).
Defined.



Lemma execute_job_raises_on_dlq_clash_witness :
  fst (fst (Worker.execute_job E0 DEFAULT_CONFIG live_j1 (Worker.Returned 1)
              (claimed w_both)))
  = Raise (IntegrityError "UNIQUE constraint failed: dlq.id").
Proof.
  destruct (execute_job_raises_on_dlq_clash E0 DEFAULT_CONFIG live_j1 1
              (claimed w_both)) as [H _].
  - discriminate.
  - vm_compute. discriminate.
  - vm_compute. reflexivity.
  - rewrite H. reflexivity.
Defined.

Lemma status_report_witness :
  exists w',
    Control.status os0 fs0 w_tie = (Ok tt, w') /\
    w_store w' = w_store w_tie.
Proof.
  destruct (status_report os0 fs0 w_tie false eq_refl) as (w' & Hs & Hst & _).
  exists w'. split; assumption.
Defined.
